(** * Logger.hpp: the asynchronous logger of the utility headers

    A shallow embedding of [bb::core::Logger]: the record formatter
    ([format], [toString], [LevelColour]), the producer entry points
    ([SetLevel], [SetLogfilePath], [EnableFileLogging], [Log],
    [LogToFile]), the worker thread's loop and the destructor.

    Conventions.
    - A call that lets an exception escape a [noexcept] function ends in
      [std::terminate]; this is the [Terminate] outcome.
    - Whatever the program reads from its surroundings (the clock, whether
      the operating system opens a path, the source locations the compiler
      records inside the header) is gathered in [Env].
    - Console and file output is an event trace, in the order the writes
      are performed. *)

From Stdlib Require Import String Ascii List Arith Lia Bool NArith ZArith.
From Stdlib Require Import DecimalString.
Import ListNotations.
Open Scope string_scope.

(** ** C string helpers *)

Module CStr.

(** [std::strstr(haystack, needle)]: the suffix of [haystack] that starts
    at the first occurrence of [needle], when there is one. *)
Fixpoint strstr (haystack needle : string) : option string :=
  if String.prefix needle haystack then Some haystack
  else match haystack with
       | EmptyString => None
       | String _ rest => strstr rest needle
       end.

(** [std::strrchr(s, c)] for a [c] other than NUL: the suffix of [s] that
    starts at the last occurrence of [c]. *)
Fixpoint strrchr (s : string) (c : ascii) : option string :=
  match s with
  | EmptyString => None
  | String a rest =>
      match strrchr rest c with
      | Some r => Some r
      | None => if Ascii.eqb a c then Some s else None
      end
  end.

(** Pointer increment on a C string: [p + 1]. *)
Definition next (p : string) : string :=
  match p with
  | EmptyString => EmptyString
  | String _ rest => rest
  end.

(** [std::erase(s, c)]: removes every occurrence of [c]. *)
Fixpoint erase (s : string) (c : ascii) : string :=
  match s with
  | EmptyString => EmptyString
  | String a rest =>
      if Ascii.eqb a c then erase rest c else String a (erase rest c)
  end.

(** [c] occurs in [s]. *)
Fixpoint mem (c : ascii) (s : string) : bool :=
  match s with
  | EmptyString => false
  | String a rest => Ascii.eqb a c || mem c rest
  end.

(** Decimal rendering of an unsigned integer, as [{}] prints it. *)
Definition decimal (n : N) : string :=
  NilZero.string_of_uint (N.to_uint n).

End CStr.

(** ** Outcome of a [noexcept] call *)

Inductive Outcome (A : Type) : Type :=
| Ok (a : A)
| Terminate.
Arguments Ok {A} a.
Arguments Terminate {A}.

Definition bind {A B : Type} (o : Outcome A) (k : A -> Outcome B) : Outcome B :=
  match o with
  | Ok a => k a
  | Terminate => Terminate
  end.

Notation "x <- o ;; k" := (bind o (fun x => k))
  (at level 61, o at next level, right associativity).

(** ** std::vformat on the plain replacement-field fragment

    The arguments are the values packed by [std::make_format_args]; the
    template may hold literal text, the escapes [{{] and [}}], automatic
    fields [{}] and manually indexed fields [{N}], where [N] is [0] or a
    number without a leading zero.  [None] stands for a thrown
    [std::format_error].  A field that carries a format specification is
    outside this fragment and is rejected here. *)

Module Fmt.

Inductive format_arg : Type :=
| ArgString (s : string)
| ArgInt (z : Z)
| ArgBool (b : bool).

Definition render (a : format_arg) : string :=
  match a with
  | ArgString s => s
  | ArgInt z => NilZero.string_of_int (Z.to_int z)
  | ArgBool b => if b then "true" else "false"
  end.

(** Scanner position relative to the braces seen so far. *)
Inductive mode : Type :=
| MText                (* in literal text *)
| MOpen                (* just after a single open brace *)
| MZero                (* the manual index is the single digit 0 *)
| MIndex (n : nat)     (* reading the digits of a manual index *)
| MClose.              (* just after a single close brace *)

(** Argument indexing: unused so far, automatic with the next index, or
    manual.  Switching between the two is a format error. *)
Inductive indexing : Type :=
| INone
| IAuto (next : nat)
| IManual.

Definition digit_of (c : ascii) : option nat :=
  let n := nat_of_ascii c in
  if ((48 <=? n)%nat && (n <=? 57)%nat)%bool then Some (n - 48) else None.

Definition auto_arg (ix : indexing) (args : list format_arg)
  : option (format_arg * indexing) :=
  match ix with
  | INone => option_map (fun a => (a, IAuto 1)) (nth_error args 0)
  | IAuto k => option_map (fun a => (a, IAuto (S k))) (nth_error args k)
  | IManual => None
  end.

Definition manual_arg (ix : indexing) (n : nat) (args : list format_arg)
  : option (format_arg * indexing) :=
  match ix with
  | IAuto _ => None
  | _ => option_map (fun a => (a, IManual)) (nth_error args n)
  end.

Fixpoint scan (s : string) (m : mode) (ix : indexing)
         (args : list format_arg) (acc : string) : option string :=
  match s with
  | EmptyString =>
      match m with
      | MText => Some acc
      | _ => None
      end
  | String c rest =>
      match m with
      | MText =>
          if Ascii.eqb c "{" then scan rest MOpen ix args acc
          else if Ascii.eqb c "}" then scan rest MClose ix args acc
          else scan rest MText ix args (acc ++ String c "")
      | MClose =>
          if Ascii.eqb c "}" then scan rest MText ix args (acc ++ "}")
          else None
      | MOpen =>
          if Ascii.eqb c "{" then scan rest MText ix args (acc ++ "{")
          else if Ascii.eqb c "}" then
            match auto_arg ix args with
            | Some (a, ix') => scan rest MText ix' args (acc ++ render a)
            | None => None
            end
          else match digit_of c with
               | Some 0 => scan rest MZero ix args acc
               | Some d => scan rest (MIndex d) ix args acc
               | None => None
               end
      | MZero =>
          if Ascii.eqb c "}" then
            match manual_arg ix 0 args with
            | Some (a, ix') => scan rest MText ix' args (acc ++ render a)
            | None => None
            end
          else None
      | MIndex n =>
          if Ascii.eqb c "}" then
            match manual_arg ix n args with
            | Some (a, ix') => scan rest MText ix' args (acc ++ render a)
            | None => None
            end
          else match digit_of c with
               | Some d => scan rest (MIndex (10 * n + d)) ix args acc
               | None => None
               end
      end
  end.

Definition vformat (fmt : string) (args : list format_arg) : option string :=
  scan fmt MText INone args "".

End Fmt.

(** ** Data model *)

Definition ESC : string := String (ascii_of_nat 27) "".
Definition NL : string := String (ascii_of_nat 10) "".

Definition COLOR_GREY : string := ESC ++ "[90m".
Definition COLOR_BLUE : string := ESC ++ "[34m".
Definition COLOR_GREEN : string := ESC ++ "[32m".
Definition COLOR_YELLOW : string := ESC ++ "[33m".
Definition COLOR_RED : string := ESC ++ "[31m".
Definition COLOR_FATAL : string := ESC ++ "[41;97m".
Definition COLOR_RESET : string := ESC ++ "[0m".

Inductive LogLevel : Type :=
| Trace | Debug | Info | Warn | Error | Fatal | Off.

(** The enumerators' underlying values, [Trace = 0] onwards. *)
Definition level_value (l : LogLevel) : nat :=
  match l with
  | Trace => 0 | Debug => 1 | Info => 2 | Warn => 3
  | Error => 4 | Fatal => 5 | Off => 6
  end.

Definition level_lt (a b : LogLevel) : bool :=
  (level_value a <? level_value b)%nat.

(** [std::source_location]. *)
Record source_location : Type := {
  file_name : string;
  line : N;
  function_name : string
}.

Record LogMessage : Type := {
  level : LogLevel;
  where_ : source_location;
  message : string;
  toFile : bool
}.

Definition path : Type := string.

(** [std::fstream], as far as the logger observes it: the path of the open
    file ([is_open]) and the stream's failure state. *)
Record fstream : Type := {
  fs_file : option path;
  fs_fail : bool
}.

Definition is_open (f : fstream) : bool :=
  match fs_file f with Some _ => true | None => false end.

(** What a call reads from outside the logger. *)
Record Env : Type := {
  ctime_now : string;                    (* std::ctime of the current time *)
  can_open : path -> bool;               (* the path opens for appending *)
  here_EnableFileLogging : source_location;
  here_LogToFile : source_location
}.

(** [fstream::open]: on a stream that is already open the call fails and
    sets the failure state, leaving the file open; a successful open
    clears the state. *)
Definition fs_open (env : Env) (p : path) (f : fstream) : fstream :=
  match fs_file f with
  | Some _ => {| fs_file := fs_file f; fs_fail := true |}
  | None =>
      if can_open env p then {| fs_file := Some p; fs_fail := false |}
      else {| fs_file := None; fs_fail := true |}
  end.

Definition fs_close (f : fstream) : fstream :=
  {| fs_file := None; fs_fail := fs_fail f |}.

(** The members of [Logger] other than the synchronisation objects. *)
Record Logger : Type := {
  _logFile : fstream;
  _logToFile : bool;
  _logPath : path;
  _level : LogLevel;
  _logQ : list LogMessage;
  _running : bool
}.

Definition DEFAULT_PATH : path := "./log.txt".

Definition initial : Logger := {|
  _logFile := {| fs_file := None; fs_fail := false |};
  _logToFile := false;
  _logPath := DEFAULT_PATH;
  _level := Trace;
  _logQ := [];
  _running := true
|}.

Definition set_logQ (q : list LogMessage) (lg : Logger) : Logger :=
  {| _logFile := _logFile lg; _logToFile := _logToFile lg;
     _logPath := _logPath lg; _level := _level lg;
     _logQ := q; _running := _running lg |}.

Definition set_running (b : bool) (lg : Logger) : Logger :=
  {| _logFile := _logFile lg; _logToFile := _logToFile lg;
     _logPath := _logPath lg; _level := _level lg;
     _logQ := _logQ lg; _running := b |}.

Definition set_logFile (f : fstream) (lg : Logger) : Logger :=
  {| _logFile := f; _logToFile := _logToFile lg;
     _logPath := _logPath lg; _level := _level lg;
     _logQ := _logQ lg; _running := _running lg |}.

Definition set_logToFile (on : bool) (lg : Logger) : Logger :=
  {| _logFile := _logFile lg; _logToFile := on;
     _logPath := _logPath lg; _level := _level lg;
     _logQ := _logQ lg; _running := _running lg |}.

(** ** The formatter *)

Definition toString (lvl : LogLevel) : string :=
  match lvl with
  | Trace => "TRACE"
  | Debug => "DEBUG"
  | Info => "INFO"
  | Warn => "WARN"
  | Error => "ERROR"
  | Fatal => "FATAL"
  | Off => ""
  end.

Definition LevelColour (lvl : LogLevel) : string :=
  match lvl with
  | Trace => COLOR_GREY
  | Debug => COLOR_BLUE
  | Info => COLOR_GREEN
  | Warn => COLOR_YELLOW
  | Error => COLOR_RED
  | Fatal => COLOR_FATAL
  | Off => COLOR_RESET
  end.

(** The pointer [p] of [format]: from the first [src/] on, else after the
    last slash, else the whole name. *)
Definition shortFile (full : string) : string :=
  match CStr.strstr full "src/" with
  | Some p => p
  | None =>
      match CStr.strrchr full "/" with
      | Some slash => CStr.next slash
      | None => full
      end
  end.

Definition file_text (env : Env) (lvl : LogLevel) (w : source_location)
           (payload : string) : string :=
  "[" ++ CStr.erase (ctime_now env) (ascii_of_nat 10) ++ "] - ["
      ++ toString lvl ++ "] " ++ shortFile (file_name w) ++ ":"
      ++ CStr.decimal (line w) ++ " in function '" ++ function_name w
      ++ "': " ++ payload ++ NL.

Definition console_text (lvl : LogLevel) (w : source_location)
           (payload : string) : string :=
  LevelColour lvl ++ "[" ++ toString lvl ++ "] " ++ shortFile (file_name w)
      ++ ":" ++ CStr.decimal (line w) ++ " in function " ++ COLOR_RESET
      ++ "'" ++ function_name w ++ "'" ++ LevelColour lvl ++ ": "
      ++ payload ++ COLOR_RESET ++ NL.

(** [Logger::format].  It is [noexcept], so a [std::format_error] thrown
    by [std::vformat] ends the process. *)
Definition format (env : Env) (lvl : LogLevel) (w : source_location)
           (fmt : string) (logToFile : bool) (args : list Fmt.format_arg)
  : Outcome string :=
  match Fmt.vformat fmt args with
  | None => Terminate
  | Some payload =>
      if logToFile then Ok (file_text env lvl w payload)
      else Ok (console_text lvl w payload)
  end.

(** ** Producer entry points *)

Definition pushToQ (msg : LogMessage) (lg : Logger) : Logger :=
  set_logQ (_logQ lg ++ [msg]) lg.

Definition SetLevel (lvl : LogLevel) (lg : Logger) : Logger :=
  {| _logFile := _logFile lg; _logToFile := _logToFile lg;
     _logPath := _logPath lg; _level := lvl;
     _logQ := _logQ lg; _running := _running lg |}.

Definition SetLogfilePath (p : path) (lg : Logger) : Logger :=
  {| _logFile := _logFile lg; _logToFile := _logToFile lg;
     _logPath := p; _level := _level lg;
     _logQ := _logQ lg; _running := _running lg |}.

Definition Log (env : Env) (lvl : LogLevel) (w : source_location)
           (fmt : string) (args : list Fmt.format_arg) (lg : Logger)
  : Outcome Logger :=
  if level_lt lvl (_level lg) then Ok lg
  else
    out <- format env lvl w fmt false args ;;
    Ok (pushToQ {| level := lvl; where_ := w; message := out;
                   toFile := false |} lg).

Definition LogToFile (env : Env) (lvl : LogLevel) (w : source_location)
           (fmt : string) (args : list Fmt.format_arg) (lg : Logger)
  : Outcome Logger :=
  if negb (_logToFile lg) then
    Log env Warn (here_LogToFile env)
        "cannot log to file if it was not previously enabled" [] lg
  else
    out <- format env lvl w fmt true args ;;
    Ok (pushToQ {| level := lvl; where_ := w; message := out;
                   toFile := true |} lg).

Definition EnableFileLogging (env : Env) (enable : bool) (lg : Logger)
  : Outcome Logger :=
  if enable then
    let lg1 := set_logFile (fs_open env (_logPath lg) (_logFile lg)) lg in
    if negb (is_open (_logFile lg1)) then
      lg2 <- Log env Error (here_EnableFileLogging env)
                 "Failed to open file" [] lg1 ;;
      Ok (set_logToFile false lg2)
    else Ok (set_logToFile enable lg1)
  else
    let lg1 := if is_open (_logFile lg)
               then set_logFile (fs_close (_logFile lg)) lg
               else lg in
    Ok (set_logToFile enable lg1).

(** ** The worker thread and the sinks *)

Inductive Event : Type :=
| ConsoleOut (text : string)               (* std::print to stdout *)
| FileOut (file : path) (text : string).   (* appended to the log file *)

(** Where the worker thread stands between two critical sections.  The
    queue mutex is free at each of these points.  [WWait] stands for the
    whole call of [_cv.wait]: the predicate is read afresh at every step
    taken there, so a stop signal that arrives while the worker is idle is
    always seen.  The destructor clears [_running] and notifies without
    holding the mutex; a notification that falls between the worker's
    predicate test and its blocking is lost in the program and is not
    represented here.  That can happen only while the queue is empty
    ([waits_idle] below). *)
Inductive WorkerPc : Type :=
| WTop                      (* about to test [_running] in the outer loop *)
| WWait                     (* in [_cv.wait], or about to enter it *)
| WWrite (msg : LogMessage) (* popped [msg], lock released, write pending *)
| WRelock                   (* written, about to take the lock again *)
| WDone.                    (* thread function returned *)

Record World : Type := {
  logger : Logger;
  wpc : WorkerPc;
  out : list Event
}.

(** State after the constructor: the worker thread has been started. *)
Definition start : World :=
  {| logger := initial; wpc := WTop; out := [] |}.

(** [_logFile << text]: nothing is inserted into a failed stream. *)
Definition stream_insert (f : fstream) (text : string) : list Event :=
  match fs_file f with
  | Some p => if fs_fail f then [] else [FileOut p text]
  | None => []
  end.

(** The guard of both write sites. *)
Definition file_target (lg : Logger) (msg : LogMessage) : bool :=
  toFile msg && _logToFile lg && is_open (_logFile lg).

(** The worker's write of one record: the file when the guard holds, and
    the console in every case. *)
Definition worker_write (lg : Logger) (msg : LogMessage) : list Event :=
  (if file_target lg msg then stream_insert (_logFile lg) (message msg)
   else [])
  ++ [ConsoleOut (message msg)].

(** The destructor's write of one record: the file when the guard holds,
    else the console. *)
Definition dtor_write (lg : Logger) (msg : LogMessage) : list Event :=
  if file_target lg msg then stream_insert (_logFile lg) (message msg)
  else [ConsoleOut (message msg)].

(** The inner loop's test and pop, under the lock. *)
Definition inner_loop (w : World) : World :=
  match _logQ (logger w) with
  | [] => {| logger := logger w; wpc := WTop; out := out w |}
  | msg :: q =>
      {| logger := set_logQ q (logger w); wpc := WWrite msg; out := out w |}
  end.

(** One atomic step of the worker; [None] when it is blocked in the wait
    or has returned. *)
Definition worker_step (w : World) : option World :=
  match wpc w with
  | WTop =>
      if _running (logger w)
      then Some {| logger := logger w; wpc := WWait; out := out w |}
      else Some {| logger := logger w; wpc := WDone; out := out w |}
  | WWait =>
      if negb (match _logQ (logger w) with [] => true | _ => false end)
         || negb (_running (logger w))
      then Some (inner_loop w)
      else None
  | WWrite msg =>
      Some {| logger := logger w; wpc := WRelock;
              out := out w ++ worker_write (logger w) msg |}
  | WRelock => Some (inner_loop w)
  | WDone => None
  end.

(** Records taken from the queue and not yet written. *)
Definition inflight (w : World) : list LogMessage :=
  match wpc w with
  | WWrite msg => [msg]
  | _ => []
  end.

Definition pending (w : World) : list LogMessage :=
  inflight w ++ _logQ (logger w).

(** ** Calls made by the other threads *)

Inductive Call : Type :=
| CSetLevel (lvl : LogLevel)
| CSetLogfilePath (p : path)
| CEnableFileLogging (enable : bool)
| CLog (lvl : LogLevel) (w : source_location) (fmt : string)
       (args : list Fmt.format_arg)
| CLogToFile (lvl : LogLevel) (w : source_location) (fmt : string)
             (args : list Fmt.format_arg).

Definition call (env : Env) (c : Call) (lg : Logger) : Outcome Logger :=
  match c with
  | CSetLevel lvl => Ok (SetLevel lvl lg)
  | CSetLogfilePath p => Ok (SetLogfilePath p lg)
  | CEnableFileLogging enable => EnableFileLogging env enable lg
  | CLog lvl w fmt args => Log env lvl w fmt args lg
  | CLogToFile lvl w fmt args => LogToFile env lvl w fmt args lg
  end.

(** A schedule interleaves calls with steps of the worker; [SStop] is the
    destructor's [_running = false; _cv.notify_all()]. *)
Inductive Sched : Type :=
| SCall (env : Env) (c : Call)
| SWorker
| SStop.

Definition sched_step (s : Sched) (w : World) : option World :=
  match s with
  | SCall env c =>
      match call env c (logger w) with
      | Ok lg => Some {| logger := lg; wpc := wpc w; out := out w |}
      | Terminate => None
      end
  | SWorker => worker_step w
  | SStop =>
      Some {| logger := set_running false (logger w); wpc := wpc w;
              out := out w |}
  end.

Fixpoint exec (ss : list Sched) (w : World) : option World :=
  match ss with
  | [] => Some w
  | s :: rest =>
      match sched_step s w with
      | Some w' => exec rest w'
      | None => None
      end
  end.


(** ** The destructor *)

(** [_workerThread.join()]: the worker runs until its function returns. *)
Fixpoint join (fuel : nat) (w : World) : option World :=
  match wpc w with
  | WDone => Some w
  | _ =>
      match fuel with
      | O => None
      | S fuel' =>
          match worker_step w with
          | Some w' => join fuel' w'
          | None => None
          end
      end
  end.

(** The residual loop of the destructor. *)
Fixpoint drain (lg : Logger) (q : list LogMessage) : list Event :=
  match q with
  | [] => []
  | msg :: q' => dtor_write lg msg ++ drain lg q'
  end.

Definition close_file (lg : Logger) : Logger :=
  if is_open (_logFile lg)
  then set_logFile (fs_close (_logFile lg)) lg
  else lg.

Definition destructor (fuel : nat) (w : World) : option World :=
  let w1 := {| logger := set_running false (logger w); wpc := wpc w;
               out := out w |} in
  match join fuel w1 with
  | None => None
  | Some w2 =>
      Some {| logger := close_file (set_logQ [] (logger w2));
              wpc := wpc w2;
              out := out w2 ++ drain (logger w2) (_logQ (logger w2)) |}
  end.

(** ** Reading a trace *)

(** The texts printed to the console, in order. *)
Fixpoint console_of (evs : list Event) : list string :=
  match evs with
  | [] => []
  | ConsoleOut text :: rest => text :: console_of rest
  | FileOut _ _ :: rest => console_of rest
  end.


(** ** The forms the specification gives *)

Module SpecText.

(** The console form as the specification writes it:
    [<color><LEVEL> <shortFile>:<line> in function <reset>'<function>'<color>: <message><reset>\n]. *)
Definition console_form (color LEVEL short ln fn msg reset : string) : string :=
  color ++ LEVEL ++ " " ++ short ++ ":" ++ ln ++ " in function " ++ reset
        ++ "'" ++ fn ++ "'" ++ color ++ ": " ++ msg ++ reset ++ NL.

(** The console form with the level name in square brackets. *)
Definition bracketed_console_form
           (color LEVEL short ln fn msg reset : string) : string :=
  color ++ "[" ++ LEVEL ++ "] " ++ short ++ ":" ++ ln ++ " in function "
        ++ reset ++ "'" ++ fn ++ "'" ++ color ++ ": " ++ msg ++ reset ++ NL.

(** The file form:
    [[<timestamp>] - [<LEVEL>] <shortFile>:<line> in function '<function>': <message>\n]. *)
Definition file_form (stamp LEVEL short ln fn msg : string) : string :=
  "[" ++ stamp ++ "] - [" ++ LEVEL ++ "] " ++ short ++ ":" ++ ln
      ++ " in function '" ++ fn ++ "': " ++ msg ++ NL.

(** Level, colour escape sequence and level name: grey, blue, green,
    yellow, red, and bright white on a red background. *)
Definition palette : list (LogLevel * string * string) :=
  [ (Trace, ESC ++ "[90m", "TRACE");
    (Debug, ESC ++ "[34m", "DEBUG");
    (Info, ESC ++ "[32m", "INFO");
    (Warn, ESC ++ "[33m", "WARN");
    (Error, ESC ++ "[31m", "ERROR");
    (Fatal, ESC ++ "[41;97m", "FATAL") ].

(** The text after the first [src/] marker. *)
Definition after_src (full : string) : option string :=
  match CStr.strstr full "src/" with
  | Some p => Some (CStr.next (CStr.next (CStr.next (CStr.next p))))
  | None => None
  end.

End SpecText.

(** The record [LogToFile] queues when file logging is off. *)
Definition misuse_record (env : Env) : LogMessage :=
  {| level := Warn; where_ := here_LogToFile env;
     message :=
       SpecText.bracketed_console_form (ESC ++ "[33m") "WARN"
         (shortFile (file_name (here_LogToFile env)))
         (CStr.decimal (line (here_LogToFile env)))
         (function_name (here_LogToFile env))
         "cannot log to file if it was not previously enabled"
         (ESC ++ "[0m");
     toFile := false |}.

(** The record [EnableFileLogging] queues when the file does not open. *)
Definition open_failure_record (env : Env) : LogMessage :=
  {| level := Error; where_ := here_EnableFileLogging env;
     message :=
       SpecText.bracketed_console_form (ESC ++ "[31m") "ERROR"
         (shortFile (file_name (here_EnableFileLogging env)))
         (CStr.decimal (line (here_EnableFileLogging env)))
         (function_name (here_EnableFileLogging env))
         "Failed to open file" (ESC ++ "[0m");
     toFile := false |}.

(** ** Concrete surroundings used by the examples *)

Module Sample.

Definition header : string := "/home/dev/game/src/Logger.hpp".

Definition env (openable : bool) : Env := {|
  ctime_now := "Wed Jun 30 21:49:08 1993" ++ NL;
  can_open := fun _ => openable;
  here_EnableFileLogging :=
    {| file_name := header; line := 67;
       function_name := "void bb::core::Logger::EnableFileLogging(bool)" |};
  here_LogToFile :=
    {| file_name := header; line := 83;
       function_name := "void bb::core::Logger::LogToFile(...)" |}
|}.

(** A logger with the default log file open. *)
Definition enabled : Logger :=
  set_logToFile true
    (set_logFile {| fs_file := Some DEFAULT_PATH; fs_fail := false |}
                 initial).

Definition site : source_location :=
  {| file_name := "/home/dev/game/src/foo/bar.ext"; line := 42;
     function_name := "int main()" |}.

Definition logA : Sched := SCall (env true) (CLog Info site "A" []).
Definition logB : Sched := SCall (env true) (CLogToFile Warn site "B" []).
Definition logC : Sched := SCall (env true) (CLog Error site "C" []).
Definition enable : Sched := SCall (env true) (CEnableFileLogging true).

(** Three records logged from one thread while the worker runs; the
    second one is for the file. *)
Definition abc : list Sched :=
  [enable; logA; SWorker; SWorker; logB; SWorker; logC; SWorker; SWorker;
   SWorker; SWorker].

(** The state that schedule ends in. *)
Definition abc_world : World :=
  Eval vm_compute in
    match exec abc start with
    | Some w => w
    | None => start
    end.

(** A worker caught between its loop test and the wait, with two records
    queued, one of them for the file. *)
Definition teardown_world : World :=
  {| logger :=
       set_logQ
         [{| level := Info; where_ := site; message := "one"; toFile := true |};
          {| level := Warn; where_ := site; message := "two"; toFile := false |}]
         enabled;
     wpc := WWait;
     out := [] |}.



(** File logging enabled twice in a row, then one record for the file,
    before the worker has run. *)
Definition twice : list Sched := [enable; enable; logB].

Definition twice_world : World :=
  Eval vm_compute in
    match exec twice start with
    | Some w => w
    | None => start
    end.

Definition recB : LogMessage :=
  {| level := Warn; where_ := site;
     message := file_text (env true) Warn site "B"; toFile := true |}.

End Sample.

(** ** The macro interface *)

Module Macros.

Inductive name : Type :=
| LOG_TRACE | LOG_DEBUG | LOG_INFO | LOG_WARN | LOG_ERROR | LOG_FATAL
| FLOG_TRACE | FLOG_DEBUG | FLOG_INFO | FLOG_WARN | FLOG_ERROR | FLOG_FATAL.

(** What a logging macro expands to at a call site; [None] is the empty
    [do {} while (0)] that the four lowest levels become under [NDEBUG]. *)
Definition expand (ndebug : bool) (m : name) (site : source_location)
           (fmt : string) (args : list Fmt.format_arg) : option Call :=
  match m with
  | LOG_TRACE => if ndebug then None else Some (CLog Trace site fmt args)
  | LOG_DEBUG => if ndebug then None else Some (CLog Debug site fmt args)
  | LOG_INFO => if ndebug then None else Some (CLog Info site fmt args)
  | LOG_WARN => if ndebug then None else Some (CLog Warn site fmt args)
  | FLOG_TRACE =>
      if ndebug then None else Some (CLogToFile Trace site fmt args)
  | FLOG_DEBUG =>
      if ndebug then None else Some (CLogToFile Debug site fmt args)
  | FLOG_INFO =>
      if ndebug then None else Some (CLogToFile Info site fmt args)
  | FLOG_WARN =>
      if ndebug then None else Some (CLogToFile Warn site fmt args)
  | LOG_ERROR => Some (CLog Error site fmt args)
  | LOG_FATAL => Some (CLog Fatal site fmt args)
  | FLOG_ERROR => Some (CLogToFile Error site fmt args)
  | FLOG_FATAL => Some (CLogToFile Fatal site fmt args)
  end.

(** One statement of a client: a logging macro, [ENABLE_FILE_LOGGING],
    [SET_LOG_FILE], or a direct [Logger::Self().SetLevel]. *)
Inductive use : Type :=
| ULog (m : name) (site : source_location) (fmt : string)
       (args : list Fmt.format_arg)
| UEnable (enable : bool)
| USetFile (p : path)
| USetLevel (lvl : LogLevel).

Definition run (ndebug : bool) (env : Env) (u : use) (lg : Logger)
  : Outcome Logger :=
  match u with
  | ULog m site fmt args =>
      match expand ndebug m site fmt args with
      | Some c => call env c lg
      | None => Ok lg
      end
  | UEnable enable => call env (CEnableFileLogging enable) lg
  | USetFile p => call env (CSetLogfilePath p) lg
  | USetLevel lvl => call env (CSetLevel lvl) lg
  end.

Fixpoint run_all (ndebug : bool) (us : list (Env * use)) (lg : Logger)
  : Outcome Logger :=
  match us with
  | [] => Ok lg
  | (env, u) :: rest =>
      lg' <- run ndebug env u lg ;; run_all ndebug rest lg'
  end.

End Macros.

(** ** Schedules with and without file logging *)

(** The step is a call of [EnableFileLogging(true)]. *)
Definition turns_file_logging_on (s : Sched) : bool :=
  match s with
  | SCall _ (CEnableFileLogging true) => true
  | _ => false
  end.

(** The step is the destructor's stop signal. *)
Definition is_stop (s : Sched) : bool :=
  match s with
  | SStop => true
  | _ => false
  end.

(** The sink the record is sent to by the guard of the write sites is
    the console. *)
Definition console_bound (lg : Logger) (msg : LogMessage) : bool :=
  negb (file_target lg msg).

(** ** The worker's share and the destructor's share *)






(** * Properties *)

(** ** Strings *)

Section StringFacts.

Lemma prefix_append (n rest : string) : String.prefix n (n ++ rest) = true.
Proof.
  induction n as [|a n IH]; simpl.
  - now destruct rest.
  - destruct (ascii_dec a a); [exact IH | congruence].
Qed.

Lemma prefix_split (n s : string) :
  String.prefix n s = true -> exists rest, s = n ++ rest.
Proof.
  revert s; induction n as [|a n IH]; intros s H.
  - now exists s.
  - destruct s as [|b s]; simpl in H; [discriminate|].
    destruct (ascii_dec a b) as [->|]; [|discriminate].
    destruct (IH _ H) as [rest ->]. now exists rest.
Qed.

Lemma strstr_prefix (h needle : string) :
  String.prefix needle h = true -> CStr.strstr h needle = Some h.
Proof. intros P. destruct h; cbn [CStr.strstr]; now rewrite P. Qed.

Lemma strstr_first (needle pre rest : string) :
  (forall pre' rest', pre ++ needle ++ rest = pre' ++ needle ++ rest' ->
                      String.length pre <= String.length pre') ->
  CStr.strstr (pre ++ needle ++ rest) needle = Some (needle ++ rest).
Proof.
  induction pre as [|a pre IH]; intros Hmin.
  - apply strstr_prefix, prefix_append.
  - simpl append. cbn [CStr.strstr].
    destruct (String.prefix needle (String a (pre ++ needle ++ rest))) eqn:P.
    + apply prefix_split in P. destruct P as [r Hr].
      specialize (Hmin "" r). simpl in Hmin.
      specialize (Hmin Hr). inversion Hmin.
    + apply IH. intros pre' rest' E.
      specialize (Hmin (String a pre') rest'). simpl in Hmin.
      rewrite E in Hmin. specialize (Hmin eq_refl). lia.
Qed.

Lemma strstr_occurs (h needle p : string) :
  CStr.strstr h needle = Some p ->
  exists pre rest, h = pre ++ needle ++ rest /\ p = needle ++ rest.
Proof.
  induction h as [|a h IH]; cbn [CStr.strstr].
  - destruct (String.prefix needle "") eqn:P; [|discriminate].
    intros [= <-]. apply prefix_split in P. destruct P as [r Hr].
    exists "", r. now split.
  - destruct (String.prefix needle (String a h)) eqn:P.
    + intros [= <-]. apply prefix_split in P. destruct P as [r Hr].
      exists "", r. now split.
    + intros H. destruct (IH H) as (pre & rest & -> & ->).
      exists (String a pre), rest. now split.
Qed.

Lemma mem_append (c : ascii) (a b : string) :
  CStr.mem c (a ++ b) = CStr.mem c a || CStr.mem c b.
Proof.
  induction a as [|x a IH]; simpl; [reflexivity|].
  now rewrite IH, orb_assoc.
Qed.

Lemma strrchr_none (s : string) (c : ascii) :
  CStr.mem c s = false -> CStr.strrchr s c = None.
Proof.
  induction s as [|a s IH]; simpl; [reflexivity|].
  intros H. apply orb_false_iff in H as [Ha Hs].
  now rewrite (IH Hs), Ha.
Qed.

Lemma strrchr_last (pre tail : string) (c : ascii) :
  CStr.mem c tail = false ->
  CStr.strrchr (pre ++ String c tail) c = Some (String c tail).
Proof.
  intros Ht. induction pre as [|a pre IH]; simpl.
  - now rewrite (strrchr_none _ _ Ht), Ascii.eqb_refl.
  - simpl in IH. now rewrite IH.
Qed.

End StringFacts.

(** ** The formatter *)

Lemma vformat_misuse_text :
  Fmt.vformat "cannot log to file if it was not previously enabled" []
  = Some "cannot log to file if it was not previously enabled".
Proof. reflexivity. Qed.

Lemma vformat_open_failure_text :
  Fmt.vformat "Failed to open file" [] = Some "Failed to open file".
Proof. reflexivity. Qed.

Lemma format_console env lvl w fmt args payload :
  Fmt.vformat fmt args = Some payload ->
  format env lvl w fmt false args = Ok (console_text lvl w payload).
Proof. intros H. unfold format. now rewrite H. Qed.

Lemma format_file env lvl w fmt args payload :
  Fmt.vformat fmt args = Some payload ->
  format env lvl w fmt true args = Ok (file_text env lvl w payload).
Proof. intros H. unfold format. now rewrite H. Qed.

Lemma console_text_bracketed lvl w payload :
  console_text lvl w payload
  = SpecText.bracketed_console_form (LevelColour lvl) (toString lvl)
      (shortFile (file_name w)) (CStr.decimal (line w)) (function_name w)
      payload COLOR_RESET.
Proof. reflexivity. Qed.

Lemma file_text_form env lvl w payload :
  file_text env lvl w payload
  = SpecText.file_form (CStr.erase (ctime_now env) (ascii_of_nat 10))
      (toString lvl) (shortFile (file_name w)) (CStr.decimal (line w))
      (function_name w) payload.
Proof.
  reflexivity.
Qed.

Lemma level_lt_spec a b :
  level_lt a b = true <-> level_value a < level_value b.
Proof. unfold level_lt. apply Nat.ltb_lt. Qed.

Lemma level_lt_false a b :
  level_lt a b = false <-> level_value b <= level_value a.
Proof. unfold level_lt. apply Nat.ltb_ge. Qed.

(** C6, as the specification states it, fails: for a call site under a
    [src/] directory the origin keeps the marker, it does not show the
    remainder after it. *)
Lemma shortFile_keeps_the_marker :
  SpecText.after_src "/home/dev/game/src/foo/bar.ext" = Some "foo/bar.ext"
  /\ shortFile "/home/dev/game/src/foo/bar.ext" = "src/foo/bar.ext"
  /\ shortFile "/home/dev/game/src/foo/bar.ext" <> "foo/bar.ext".
Proof. repeat split; try reflexivity. discriminate. Qed.

(** C6, amended: the short file name is the call-site path from its first
    [src/] on, the marker included; with no [src/] in the path it is the
    text after the last slash; with no slash either it is the whole
    path. *)
Theorem shortFile_resolution (full : string) :
  (forall pre rest,
      full = pre ++ "src/" ++ rest ->
      (forall pre' rest', full = pre' ++ "src/" ++ rest' ->
                          String.length pre <= String.length pre') ->
      shortFile full = "src/" ++ rest)
  /\ (forall pre base,
      (forall p r, full <> p ++ "src/" ++ r) ->
      full = pre ++ "/" ++ base ->
      CStr.mem "/" base = false ->
      shortFile full = base)
  /\ (CStr.mem "/" full = false -> shortFile full = full).
Proof.
  split; [|split].
  - intros pre rest -> Hmin. unfold shortFile.
    now rewrite (strstr_first "src/" pre rest Hmin).
  - intros pre base Hno -> Hbase. unfold shortFile.
    destruct (CStr.strstr (pre ++ "/" ++ base) "src/") as [p|] eqn:E.
    + apply strstr_occurs in E. destruct E as (p' & r & E & _).
      now elim (Hno p' r).
    + change ("/" ++ base) with (String "/" base).
      now rewrite (strrchr_last pre base "/" Hbase).
  - intros Hno. unfold shortFile.
    destruct (CStr.strstr full "src/") as [p|] eqn:E.
    + apply strstr_occurs in E. destruct E as (p' & r & -> & _).
      rewrite mem_append in Hno. apply orb_false_iff in Hno as [_ Hno].
      simpl in Hno. discriminate Hno.
    + now rewrite (strrchr_none _ _ Hno).
Qed.

Lemma shortFile_resolution_witness :
  shortFile "a/src/b.c" = "src/b.c"
  /\ shortFile "/usr/include/x.h" = "x.h"
  /\ shortFile "main.cpp" = "main.cpp".
Proof.
  split; [|split].
  - apply (proj1 (shortFile_resolution "a/src/b.c") "a/" "b.c");
      [reflexivity|].
    intros pre' rest' E.
    destruct pre' as [|c0 [|c1 pre']]; simpl in E |- *;
      [discriminate E | | lia].
    injection E as _ E. discriminate E.
  - apply (proj1 (proj2 (shortFile_resolution "/usr/include/x.h"))
                 "/usr/include" "x.h"); [|reflexivity|reflexivity].
    intros p r E.
    assert (H : CStr.strstr "/usr/include/x.h" "src/" = None)
      by reflexivity.
    rewrite E in H.
    assert (H' : exists q, CStr.strstr (p ++ "src/" ++ r) "src/" = Some q).
    { clear. induction p as [|a p [q IH]].
      - exists ("src/" ++ r). apply strstr_prefix, prefix_append.
      - simpl append. cbn [CStr.strstr].
        destruct (String.prefix _ _); [now eexists | now exists q]. }
    destruct H' as [q Hq]. congruence.
  - apply (proj2 (proj2 (shortFile_resolution "main.cpp"))). reflexivity.
Defined.

(** C9, as the specification states it, fails: the console form carries
    the level name in square brackets, which the stated pattern lacks. *)
Lemma console_form_has_brackets :
  format (Sample.env true) Info Sample.site "hello" false []
  <> Ok (SpecText.console_form (ESC ++ "[32m") "INFO" "src/foo/bar.ext"
           "42" "int main()" "hello" (ESC ++ "[0m")).
Proof. vm_compute. discriminate. Qed.

(** C9, amended: for a console-targeted call at a level from Trace to
    Fatal the rendered string is
    [<color>[<LEVEL>] <shortFile>:<line> in function <reset>'<function>'<color>: <message><reset>\n],
    the level name in square brackets, with the colour chosen by level:
    Trace grey, Debug blue, Info green, Warn yellow, Error red, Fatal
    white on a red background. *)
Theorem console_form_by_level env lvl w fmt args payload :
  lvl <> Off ->
  Fmt.vformat fmt args = Some payload ->
  exists color name,
    In (lvl, color, name) SpecText.palette
    /\ format env lvl w fmt false args
       = Ok (SpecText.bracketed_console_form color name
               (shortFile (file_name w)) (CStr.decimal (line w))
               (function_name w) payload (ESC ++ "[0m")).
Proof.
  intros Hoff Hfmt.
  exists (LevelColour lvl), (toString lvl). split.
  - destruct lvl; simpl; tauto.
  - rewrite (format_console _ _ _ _ _ _ Hfmt).
    now rewrite console_text_bracketed.
Qed.

Lemma console_form_by_level_witness :
  exists color name,
    In (Fatal, color, name) SpecText.palette
    /\ format (Sample.env true) Fatal Sample.site "lost {} frames" false
              [Fmt.ArgInt 3]
       = Ok (SpecText.bracketed_console_form color name "src/foo/bar.ext"
               "42" "int main()" "lost 3 frames" (ESC ++ "[0m")).
Proof.
  apply (console_form_by_level (Sample.env true) Fatal Sample.site
           "lost {} frames" [Fmt.ArgInt 3] "lost 3 frames");
    [discriminate | reflexivity].
Defined.

(** ** The entry points *)

(** C1: a template with more fields than arguments makes [std::vformat]
    throw inside the [noexcept] entry points, so both [Log] and
    [LogToFile] end the host process instead of emitting a diagnostic. *)
Theorem mismatched_template_terminates :
  Log (Sample.env true) Info Sample.site "{}" [] initial = Terminate
  /\ (exists lg,
         EnableFileLogging (Sample.env true) true initial = Ok lg
         /\ LogToFile (Sample.env true) Info Sample.site "{}" [] lg
            = Terminate).
Proof. split; [reflexivity | eexists; split; reflexivity]. Qed.

(** C2: with file logging enabled, a [LogToFile] call at any level and
    under any minimum level renders the file form and appends exactly one
    file-flagged record to the queue; the minimum level is not
    consulted. *)
Theorem LogToFile_ignores_minimum_level
        env L minimumLevel w fmt args payload lg :
  _logToFile lg = true ->
  Fmt.vformat fmt args = Some payload ->
  LogToFile env L w fmt args (SetLevel minimumLevel lg)
  = Ok (set_logQ
          (_logQ lg ++
             [{| level := L; where_ := w;
                 message :=
                   SpecText.file_form
                     (CStr.erase (ctime_now env) (ascii_of_nat 10))
                     (toString L) (shortFile (file_name w))
                     (CStr.decimal (line w)) (function_name w) payload;
                 toFile := true |}])
          (SetLevel minimumLevel lg)).
Proof.
  intros Hon Hfmt. unfold LogToFile. simpl _logToFile. rewrite Hon.
  simpl negb. cbv iota. rewrite (format_file _ _ _ _ _ _ Hfmt).
  reflexivity.
Qed.

Lemma LogToFile_ignores_minimum_level_witness :
  exists text,
    LogToFile (Sample.env true) Trace Sample.site "saved {}"
              [Fmt.ArgString "slot1"]
              (SetLevel Off Sample.enabled)
    = Ok (set_logQ [{| level := Trace; where_ := Sample.site;
                       message := text; toFile := true |}]
            (SetLevel Off Sample.enabled)).
Proof.
  eexists.
  apply (LogToFile_ignores_minimum_level (Sample.env true) Trace Off
           Sample.site "saved {}" [Fmt.ArgString "slot1"] "saved slot1"
           Sample.enabled);
    reflexivity.
Defined.

(** C3: once the minimum level is [L2], a console call at a level
    [L1 < L2] returns with the logger unchanged, whatever the template
    (it is not rendered, so even a malformed one is harmless), while a
    call at [L2] or above renders the message and appends exactly one
    console record. *)
Theorem Log_level_gate env L1 L2 w fmt args lg :
  level_value L1 < level_value L2 ->
  Log env L1 w fmt args (SetLevel L2 lg) = Ok (SetLevel L2 lg)
  /\ forall L payload,
      level_value L2 <= level_value L ->
      Fmt.vformat fmt args = Some payload ->
      Log env L w fmt args (SetLevel L2 lg)
      = Ok (set_logQ
              (_logQ lg ++
                 [{| level := L; where_ := w;
                     message := console_text L w payload;
                     toFile := false |}])
              (SetLevel L2 lg)).
Proof.
  intros Hlt. split.
  - unfold Log. simpl _level.
    now rewrite (proj2 (level_lt_spec L1 L2) Hlt).
  - intros L payload Hge Hfmt. unfold Log. simpl _level.
    rewrite (proj2 (level_lt_false L L2) Hge).
    now rewrite (format_console _ _ _ _ _ _ Hfmt).
Qed.

Lemma Log_level_gate_witness :
  Log (Sample.env true) Info Sample.site "{" [] (SetLevel Warn initial)
  = Ok (SetLevel Warn initial)
  /\ Log (Sample.env true) Error Sample.site "fps {}" [Fmt.ArgInt 12]
         (SetLevel Warn initial)
     = Ok (set_logQ
             [{| level := Error; where_ := Sample.site;
                 message := console_text Error Sample.site "fps 12";
                 toFile := false |}]
             (SetLevel Warn initial)).
Proof.
  split.
  - apply (Log_level_gate (Sample.env true) Info Warn Sample.site "{" []
                          initial). simpl. lia.
  - apply (proj2 (Log_level_gate (Sample.env true) Info Warn Sample.site
                                 "fps {}" [Fmt.ArgInt 12] initial
                                 ltac:(simpl; lia))
                 Error "fps 12"); [simpl; lia | reflexivity].
Defined.

(** C4, as the specification states it, fails: with the minimum level
    above Warn the misuse warning is filtered like any console record, and
    the call queues nothing at all. *)
Lemma LogToFile_disabled_can_be_silent :
  LogToFile (Sample.env true) Info Sample.site "saved {}"
            [Fmt.ArgString "slot1"] (SetLevel Error initial)
  = Ok (SetLevel Error initial)
  /\ _logQ (SetLevel Error initial) = [].
Proof. split; reflexivity. Qed.

(** C4, amended: a [LogToFile] call made while file logging is off drops
    the original message (nothing is rendered from it, nothing is flagged
    for the file) and returns; it queues exactly one Warn-level console
    record noting the misuse when the minimum level is Warn or lower, and
    nothing when the minimum level is above Warn. *)
Theorem LogToFile_while_disabled env lvl w fmt args lg :
  _logToFile lg = false ->
  (level_value (_level lg) <= level_value Warn ->
   LogToFile env lvl w fmt args lg
   = Ok (set_logQ (_logQ lg ++ [misuse_record env]) lg))
  /\ (level_value Warn < level_value (_level lg) ->
      LogToFile env lvl w fmt args lg = Ok lg).
Proof.
  intros Hoff. unfold LogToFile. rewrite Hoff. simpl negb. cbv iota.
  unfold Log. split; intros Hl.
  - rewrite (proj2 (level_lt_false Warn (_level lg)) Hl).
    now rewrite (format_console _ _ _ _ _ _ vformat_misuse_text).
  - now rewrite (proj2 (level_lt_spec Warn (_level lg)) Hl).
Qed.

Lemma LogToFile_while_disabled_witness :
  LogToFile (Sample.env true) Fatal Sample.site "{" [] initial
  = Ok (set_logQ [misuse_record (Sample.env true)] initial)
  /\ LogToFile (Sample.env true) Fatal Sample.site "{" []
               (SetLevel Off initial)
     = Ok (SetLevel Off initial).
Proof.
  split.
  - apply (proj1 (LogToFile_while_disabled (Sample.env true) Fatal
                    Sample.site "{" [] initial eq_refl)).
    simpl. lia.
  - apply (proj2 (LogToFile_while_disabled (Sample.env true) Fatal
                    Sample.site "{" [] (SetLevel Off initial) eq_refl)).
    simpl. lia.
Defined.

(** C5, as the specification states it, fails: the record reporting a
    failed open is Error-level, and no Warn-level record is queued. *)
Lemma open_failure_is_not_a_warning :
  exists lg,
    EnableFileLogging (Sample.env false) true initial = Ok lg
    /\ map level (_logQ lg) = [Error]
    /\ ~ exists m, In m (_logQ lg) /\ level m = Warn.
Proof.
  eexists. split; [reflexivity|]. split; [reflexivity|].
  intros (m & [<- | []] & H). discriminate H.
Qed.

(** C5, amended: when [EnableFileLogging(true)] is called with no file
    open and the configured path does not open, the call returns normally
    with file logging off and the stream closed; it queues exactly one
    Error-level console record reporting the failure when the minimum
    level is Error or lower, and nothing when the minimum level is above
    Error. *)
Theorem EnableFileLogging_open_failure env lg :
  fs_file (_logFile lg) = None ->
  can_open env (_logPath lg) = false ->
  exists lg',
    EnableFileLogging env true lg = Ok lg'
    /\ _logToFile lg' = false
    /\ is_open (_logFile lg') = false
    /\ (level_value (_level lg) <= level_value Error ->
        _logQ lg' = (_logQ lg ++ [open_failure_record env])%list)
    /\ (level_value Error < level_value (_level lg) ->
        _logQ lg' = _logQ lg).
Proof.
  intros Hclosed Hbad. unfold EnableFileLogging, fs_open.
  rewrite Hclosed, Hbad. cbn [set_logFile _logFile is_open fs_file negb].
  unfold Log. cbn [_level set_logFile].
  destruct (level_lt Error (_level lg)) eqn:E.
  - eexists. split; [reflexivity|]. cbn.
    repeat split; trivial.
    apply level_lt_spec in E. intros H. simpl in *. lia.
  - rewrite (format_console _ _ _ _ _ _ vformat_open_failure_text).
    eexists. split; [reflexivity|].
    cbn [bind set_logToFile pushToQ set_logQ _logToFile _logFile _logQ
         is_open fs_file].
    repeat split; trivial.
    apply level_lt_false in E. intros H. simpl in *. lia.
Qed.

Lemma EnableFileLogging_open_failure_witness :
  exists lg',
    EnableFileLogging (Sample.env false) true initial = Ok lg'
    /\ _logToFile lg' = false
    /\ is_open (_logFile lg') = false
    /\ (level_value (_level initial) <= level_value Error ->
        _logQ lg' = (_logQ initial ++ [open_failure_record (Sample.env false)])%list)
    /\ (level_value Error < level_value (_level initial) ->
        _logQ lg' = _logQ initial).
Proof.
  apply (EnableFileLogging_open_failure (Sample.env false) initial);
    reflexivity.
Defined.

(** ** The queue between the callers and the worker *)

Section QueueFacts.

Local Open Scope list_scope.

Lemma set_logQ_idem q q' lg : set_logQ q (set_logQ q' lg) = set_logQ q lg.
Proof. reflexivity. Qed.

Lemma set_logQ_same lg : set_logQ (_logQ lg) lg = lg.
Proof. now destruct lg. Qed.

Lemma pushToQ_set_logQ msg q lg :
  pushToQ msg (set_logQ q lg) = set_logQ (q ++ [msg]) (pushToQ msg lg).
Proof. reflexivity. Qed.



Lemma worker_write_shape lg msg :
  worker_write lg msg = [ConsoleOut (message msg)]
  \/ (toFile msg = true
      /\ exists p, worker_write lg msg
                   = [FileOut p (message msg); ConsoleOut (message msg)]).
Proof.
  unfold worker_write, file_target, stream_insert.
  destruct (toFile msg); cbn [andb]; [|now left].
  destruct (_logToFile lg); cbn [andb]; [|now left].
  destruct (is_open (_logFile lg)); [|now left].
  destruct (fs_file (_logFile lg)) as [p|]; [|now left].
  destruct (fs_fail (_logFile lg)); [now left|].
  right. split; [reflexivity|]. now exists p.
Qed.

Lemma console_of_app a b : console_of (a ++ b) = console_of a ++ console_of b.
Proof.
  induction a as [|[t|p t] a IH]; simpl; [reflexivity| |exact IH].
  now rewrite IH.
Qed.





End QueueFacts.

(** The three records of [Sample.abc] come out in the order logged; the
    second, file-flagged one goes to the file and then to the console. *)
Example abc_written_in_order :
  out Sample.abc_world
  = [ConsoleOut (console_text Info Sample.site "A");
     FileOut DEFAULT_PATH (file_text (Sample.env true) Warn Sample.site "B");
     ConsoleOut (file_text (Sample.env true) Warn Sample.site "B");
     ConsoleOut (console_text Error Sample.site "C")]
  /\ pending Sample.abc_world = [].
Proof. split; reflexivity. Qed.

(** ** Teardown *)

Section Teardown.

Local Open Scope list_scope.




End Teardown.

(** ** The worker's writes *)

(** The file-logging flag follows the stream's handle in every state the
    interface can reach. *)
Lemma call_keeps_flag_with_handle env c lg lg' :
  _logToFile lg = is_open (_logFile lg) ->
  call env c lg = Ok lg' ->
  _logToFile lg' = is_open (_logFile lg').
Proof.
  intros Hinv. destruct c as [lvl | p | enable | lvl w fmt args | lvl w fmt args];
    cbn [call].
  - now intros [= <-].
  - now intros [= <-].
  - unfold EnableFileLogging, Log. destruct enable.
    + cbn [set_logFile _logFile _level].
      destruct (negb (is_open (fs_open env (_logPath lg) (_logFile lg))))
        eqn:E.
      * destruct (level_lt Error (_level lg)).
        -- cbn [bind]. intros [= <-]. cbn. symmetry.
           now apply negb_true_iff.
        -- destruct (format env Error (here_EnableFileLogging env)
                            "Failed to open file" false []);
             cbn [bind]; [|discriminate].
           intros [= <-]. cbn. symmetry. now apply negb_true_iff.
      * intros [= <-]. cbn. symmetry. now apply negb_false_iff.
    + intros [= <-].
      destruct (is_open (_logFile lg)) eqn:E; cbn; [reflexivity|].
      now rewrite E.
  - unfold Log. destruct (level_lt lvl (_level lg)).
    + now intros [= <-].
    + destruct (format env lvl w fmt false args); cbn [bind];
        [|discriminate].
      now intros [= <-].
  - unfold LogToFile, Log. destruct (negb (_logToFile lg)).
    + destruct (level_lt Warn (_level lg)).
      * now intros [= <-].
      * destruct (format env Warn (here_LogToFile env) _ false []);
          cbn [bind]; [|discriminate].
        now intros [= <-].
    + destruct (format env lvl w fmt true args); cbn [bind];
        [|discriminate].
      now intros [= <-].
Qed.

Lemma exec_keeps_flag_with_handle ss :
  forall w w',
    _logToFile (logger w) = is_open (_logFile (logger w)) ->
    exec ss w = Some w' ->
    _logToFile (logger w') = is_open (_logFile (logger w')).
Proof.
  induction ss as [|s ss IH]; intros w w' Hinv He.
  - now injection He as <-.
  - cbn [exec] in He.
    destruct (sched_step s w) as [w1|] eqn:Hs; [|discriminate].
    apply (IH w1 w'); [|exact He]. clear He IH.
    destruct s as [env c| |]; cbn [sched_step] in Hs.
    + destruct (call env c (logger w)) as [lg'|] eqn:Hc; [|discriminate].
      injection Hs as <-. cbn [logger].
      exact (call_keeps_flag_with_handle env c _ _ Hinv Hc).
    + unfold worker_step, inner_loop in Hs.
      destruct (wpc w);
        repeat match type of Hs with
               | context [if ?b then _ else _] => destruct b
               | context [match _logQ ?l with _ => _ end] =>
                   destruct (_logQ l)
               end;
        try discriminate; injection Hs as <-; exact Hinv.
    + injection Hs as <-. exact Hinv.
Qed.

(** A second [EnableFileLogging(true)] on the open stream leaves it open
    but failed: the worker then prints file-flagged records to the
    console only. *)
Example second_enable_fails_the_stream :
  exists lg,
    call (Sample.env true) (CEnableFileLogging true)
         (logger Sample.abc_world) = Ok lg
    /\ _logToFile lg = true
    /\ _logFile lg = {| fs_file := Some DEFAULT_PATH; fs_fail := true |}
    /\ worker_write lg {| level := Info; where_ := Sample.site;
                         message := "x"; toFile := true |}
       = [ConsoleOut "x"].
Proof. eexists. repeat split; reflexivity. Qed.

(** * Further properties of the formatter *)

Section ShortFileFacts.

Lemma string_app_assoc (a b c : string) : (a ++ b) ++ c = a ++ b ++ c.
Proof. induction a as [|x a IH]; simpl; [reflexivity | now rewrite IH]. Qed.

Lemma strrchr_split (s : string) (c : ascii) (r : string) :
  CStr.strrchr s c = Some r ->
  exists pre tail,
    s = pre ++ String c tail /\ r = String c tail /\ CStr.mem c tail = false.
Proof.
  revert r. induction s as [|a s IH]; intros r; simpl; [discriminate|].
  destruct (CStr.strrchr s c) as [r'|] eqn:E.
  - intros [= <-]. destruct (IH r' eq_refl) as (pre & tail & -> & -> & Ht).
    now exists (String a pre), tail.
  - destruct (Ascii.eqb a c) eqn:A; [|discriminate].
    intros [= <-]. apply Ascii.eqb_eq in A. subst a.
    exists "", s. repeat split.
    clear IH. induction s as [|b s IH]; [reflexivity|].
    simpl in E |- *. destruct (CStr.strrchr s c); [discriminate|].
    destruct (Ascii.eqb b c); [discriminate|]. now apply IH.
Qed.

Lemma strstr_none_no_slash (s : string) :
  CStr.mem "/" s = false -> CStr.strstr s "src/" = None.
Proof.
  intros Hs. destruct (CStr.strstr s "src/") as [p|] eqn:E; [|reflexivity].
  apply strstr_occurs in E. destruct E as (pre & rest & -> & _).
  rewrite mem_append in Hs. apply orb_false_iff in Hs as [_ Hs].
  simpl in Hs. discriminate Hs.
Qed.

End ShortFileFacts.

(** X1: the short file name is always a trailing part of the call-site
    path: nothing is ever added or rewritten, only a prefix is cut. *)
Theorem shortFile_is_a_suffix (full : string) :
  exists pre, full = pre ++ shortFile full.
Proof.
  unfold shortFile.
  destruct (CStr.strstr full "src/") as [p|] eqn:E.
  - apply strstr_occurs in E. destruct E as (pre & rest & -> & ->).
    now exists pre.
  - destruct (CStr.strrchr full "/") as [r|] eqn:R.
    + apply strrchr_split in R. destruct R as (pre & tail & -> & -> & _).
      exists (pre ++ "/"). rewrite string_app_assoc. reflexivity.
    + now exists "".
Qed.

(** X2: shortening is idempotent, and a short name either begins with
    [src/] or holds no slash at all. *)
Theorem shortFile_idempotent (full : string) :
  shortFile (shortFile full) = shortFile full
  /\ (String.prefix "src/" (shortFile full) = true
      \/ CStr.mem "/" (shortFile full) = false).
Proof.
  remember (shortFile full) as short eqn:S. unfold shortFile in S.
  destruct (CStr.strstr full "src/") as [p|] eqn:E.
  - subst short. apply strstr_occurs in E.
    destruct E as (pre & rest & _ & ->).
    split; [|left; apply prefix_append].
    unfold shortFile. now rewrite (strstr_prefix _ _ (prefix_append _ rest)).
  - destruct (CStr.strrchr full "/") as [r|] eqn:R.
    + apply strrchr_split in R. destruct R as (pre & tail & _ & -> & Ht).
      cbn [CStr.next] in S. subst short. split; [|now right].
      unfold shortFile.
      now rewrite (strstr_none_no_slash _ Ht), (strrchr_none _ _ Ht).
    + subst short. split.
      * unfold shortFile. now rewrite E, R.
      * right. clear E. induction full as [|a s IH]; [reflexivity|].
        simpl in R |- *. destruct (CStr.strrchr s "/"); [discriminate|].
        destruct (Ascii.eqb a "/"); [discriminate|]. now apply IH.
Qed.

Section TextFacts.

Lemma mem_erase_other (c d : ascii) (s : string) :
  CStr.mem c s = false -> CStr.mem c (CStr.erase s d) = false.
Proof.
  induction s as [|a s IH]; simpl; [reflexivity|].
  intros H. apply orb_false_iff in H as [Ha Hs].
  destruct (Ascii.eqb a d); simpl; [now apply IH|].
  now rewrite Ha, (IH Hs).
Qed.

Lemma mem_erase_same (c : ascii) (s : string) :
  CStr.mem c (CStr.erase s c) = false.
Proof.
  induction s as [|a s IH]; simpl; [reflexivity|].
  destruct (Ascii.eqb a c) eqn:A; simpl; [exact IH|].
  now rewrite A, IH.
Qed.

Lemma mem_shortFile (c : ascii) (full : string) :
  CStr.mem c full = false -> CStr.mem c (shortFile full) = false.
Proof.
  intros H. unfold shortFile.
  destruct (CStr.strstr full "src/") as [p|] eqn:E.
  - apply strstr_occurs in E. destruct E as (pre & rest & -> & ->).
    rewrite mem_append in H. now apply orb_false_iff in H as [_ H].
  - destruct (CStr.strrchr full "/") as [r|] eqn:R; [|exact H].
    apply strrchr_split in R. destruct R as (pre & tail & -> & -> & _).
    rewrite mem_append in H. apply orb_false_iff in H as [_ H].
    simpl in H. now apply orb_false_iff in H as [_ H].
Qed.

(** Splits a fact [mem c "..." = false] into one fact per character and
    rewrites the goal with them. *)
Ltac by_alphabet H :=
  simpl in H;
  repeat (let A := fresh "A" in apply orb_false_iff in H as [A H]);
  simpl;
  repeat match goal with
         | A : ?x = false |- context [?x] => rewrite A
         end;
  try reflexivity.

Lemma mem_uint (c : ascii) (d : Decimal.uint) :
  CStr.mem c "0123456789" = false ->
  CStr.mem c (NilEmpty.string_of_uint d) = false.
Proof.
  intros H. induction d; simpl; rewrite ?IHd; by_alphabet H.
Qed.

Lemma mem_decimal (c : ascii) (n : N) :
  CStr.mem c "0123456789" = false -> CStr.mem c (CStr.decimal n) = false.
Proof.
  intros H. unfold CStr.decimal, NilZero.string_of_uint.
  destruct (N.to_uint n) eqn:E; try (rewrite <- E; now apply mem_uint).
  by_alphabet H.
Qed.

(** The characters the file form itself supplies. *)
Lemma mem_file_text (c : ascii) env lvl w payload :
  CStr.mem c "[] -:'infuctoTRACEDBUGINFOWL0123456789" = false ->
  CStr.mem c (shortFile (file_name w)) = false ->
  CStr.mem c (function_name w) = false ->
  CStr.mem c payload = false ->
  CStr.mem c (CStr.erase (ctime_now env) (ascii_of_nat 10)) = false ->
  exists body,
    file_text env lvl w payload = body ++ NL /\ CStr.mem c body = false.
Proof.
  intros Hc Hs Hf Hp Ht.
  assert (Hd : CStr.mem c "0123456789" = false) by by_alphabet Hc.
  assert (Hl : CStr.mem c (toString lvl) = false)
    by (destruct lvl; by_alphabet Hc).
  exists ("[" ++ CStr.erase (ctime_now env) (ascii_of_nat 10) ++ "] - ["
          ++ toString lvl ++ "] " ++ shortFile (file_name w) ++ ":"
          ++ CStr.decimal (line w) ++ " in function '" ++ function_name w
          ++ "': " ++ payload).
  split.
  - unfold file_text. now rewrite !string_app_assoc.
  - rewrite !mem_append, Ht, Hl, Hs, (mem_decimal c (line w) Hd), Hf, Hp.
    by_alphabet Hc.
Qed.

End TextFacts.

(** X3: for the same call content, free of escape characters, the
    console text carries colour codes and the file text carries none. *)
Theorem colour_only_on_console env lvl w fmt args payload :
  Fmt.vformat fmt args = Some payload ->
  CStr.mem (ascii_of_nat 27) (ctime_now env) = false ->
  CStr.mem (ascii_of_nat 27) (file_name w) = false ->
  CStr.mem (ascii_of_nat 27) (function_name w) = false ->
  CStr.mem (ascii_of_nat 27) payload = false ->
  exists ctext ftext,
    format env lvl w fmt false args = Ok ctext
    /\ format env lvl w fmt true args = Ok ftext
    /\ CStr.mem (ascii_of_nat 27) ctext = true
    /\ CStr.mem (ascii_of_nat 27) ftext = false.
Proof.
  intros Hfmt Ht Hn Hf Hp.
  exists (console_text lvl w payload), (file_text env lvl w payload).
  split; [now apply format_console|]. split; [now apply format_file|].
  split.
  - destruct lvl; reflexivity.
  - destruct (mem_file_text (ascii_of_nat 27) env lvl w payload)
      as (body & -> & Hb); trivial.
    + now apply mem_shortFile.
    + now apply mem_erase_other.
    + now rewrite mem_append, Hb.
Qed.

Lemma colour_only_on_console_witness :
  exists ctext ftext,
    format (Sample.env true) Warn Sample.site "fps {}" false [Fmt.ArgInt 12]
    = Ok ctext
    /\ format (Sample.env true) Warn Sample.site "fps {}" true [Fmt.ArgInt 12]
       = Ok ftext
    /\ CStr.mem (ascii_of_nat 27) ctext = true
    /\ CStr.mem (ascii_of_nat 27) ftext = false.
Proof.
  apply (colour_only_on_console (Sample.env true) Warn Sample.site "fps {}"
           [Fmt.ArgInt 12] "fps 12"); reflexivity.
Defined.

(** X4: a file record is a single line.  Whatever line breaks the time
    string holds are removed, so with none in the file name, the function
    name and the formatted message, the only line break of the text is
    its last character. *)
Theorem file_record_is_one_line env lvl w fmt args payload :
  Fmt.vformat fmt args = Some payload ->
  CStr.mem (ascii_of_nat 10) (file_name w) = false ->
  CStr.mem (ascii_of_nat 10) (function_name w) = false ->
  CStr.mem (ascii_of_nat 10) payload = false ->
  exists body,
    format env lvl w fmt true args = Ok (body ++ NL)
    /\ CStr.mem (ascii_of_nat 10) body = false.
Proof.
  intros Hfmt Hn Hf Hp.
  destruct (mem_file_text (ascii_of_nat 10) env lvl w payload)
    as (body & E & Hb); trivial.
  - now apply mem_shortFile.
  - apply mem_erase_same.
  - exists body. split; [|exact Hb].
    now rewrite (format_file _ _ _ _ _ _ Hfmt), E.
Qed.

Lemma file_record_is_one_line_witness :
  exists body,
    format (Sample.env true) Error Sample.site "lost {}" true
           [Fmt.ArgString "frame"]
    = Ok (body ++ NL)
    /\ CStr.mem (ascii_of_nat 10) body = false.
Proof.
  apply (file_record_is_one_line (Sample.env true) Error Sample.site
           "lost {}" [Fmt.ArgString "frame"] "lost frame"); reflexivity.
Defined.

(** * Further properties of the entry points *)

Section CallFacts.

Local Open Scope list_scope.

Lemma Log_effect env lvl w fmt args lg lg' :
  Log env lvl w fmt args lg = Ok lg' ->
  exists new,
    lg' = set_logQ (_logQ lg ++ new) lg
    /\ length new <= 1
    /\ Forall (fun m => level m = lvl /\ toFile m = false) new.
Proof.
  unfold Log. destruct (level_lt lvl (_level lg)).
  - intros [= <-]. exists []. rewrite app_nil_r, set_logQ_same.
    repeat split; [simpl; lia | constructor].
  - destruct (format env lvl w fmt false args) as [text|]; cbn [bind];
      [|discriminate].
    intros [= <-]. eexists [_]. repeat split; [simpl; lia|].
    constructor; [now split | constructor].
Qed.

Lemma LogToFile_effect env lvl w fmt args lg lg' :
  LogToFile env lvl w fmt args lg = Ok lg' ->
  exists new,
    lg' = set_logQ (_logQ lg ++ new) lg
    /\ length new <= 1
    /\ Forall (fun m => level m = lvl \/ level m = Warn) new.
Proof.
  unfold LogToFile. destruct (negb (_logToFile lg)).
  - intros H. apply Log_effect in H. destruct H as (new & -> & Hl & Hf).
    exists new. repeat split; trivial.
    eapply Forall_impl; [|exact Hf]. intros m [Hm _]. now right.
  - destruct (format env lvl w fmt true args) as [text|]; cbn [bind];
      [|discriminate].
    intros [= <-]. eexists [_]. repeat split; [simpl; lia|].
    constructor; [now left | constructor].
Qed.

Lemma EnableFileLogging_effect env enable lg lg' :
  EnableFileLogging env enable lg = Ok lg' ->
  exists new,
    _logQ lg' = _logQ lg ++ new
    /\ length new <= 1
    /\ Forall (fun m => level m = Error) new
    /\ _running lg' = _running lg
    /\ _level lg' = _level lg.
Proof.
  unfold EnableFileLogging. destruct enable.
  - cbn [set_logFile _logFile].
    destruct (negb (is_open (fs_open env (_logPath lg) (_logFile lg)))).
    + destruct (Log env Error (here_EnableFileLogging env)
                    "Failed to open file" [] _) as [lg2|] eqn:L;
        cbn [bind]; [|discriminate].
      intros [= <-]. apply Log_effect in L.
      destruct L as (new & -> & Hl & Hf). exists new.
      repeat split; trivial.
      eapply Forall_impl; [|exact Hf]. now intros m [Hm _].
    + intros [= <-]. exists []. cbn. rewrite app_nil_r.
      repeat split; [lia | constructor].
  - intros [= <-]. exists [].
    destruct (is_open (_logFile lg)); cbn; rewrite app_nil_r;
      repeat split; try lia; constructor.
Qed.

End CallFacts.

(** X5: no call of the interface removes or reorders queued records or
    touches [_running]: a call appends at most one record to the back of
    the queue.  The two logging calls change nothing but the queue. *)
Theorem calls_only_append env c lg lg' :
  call env c lg = Ok lg' ->
  exists new,
    _logQ lg' = (_logQ lg ++ new)%list
    /\ List.length new <= 1
    /\ _running lg' = _running lg
    /\ ((exists lvl w fmt args,
            c = CLog lvl w fmt args \/ c = CLogToFile lvl w fmt args) ->
        lg' = set_logQ (_logQ lg ++ new) lg).
Proof.
  destruct c as [lvl | p | enable | lvl w fmt args | lvl w fmt args];
    cbn [call]; intros H.
  - injection H as <-. exists []. cbn. rewrite app_nil_r.
    repeat split; [lia|]. intros (? & ? & ? & ? & [E | E]); discriminate E.
  - injection H as <-. exists []. cbn. rewrite app_nil_r.
    repeat split; [lia|]. intros (? & ? & ? & ? & [E | E]); discriminate E.
  - apply EnableFileLogging_effect in H.
    destruct H as (new & Hq & Hl & _ & Hr & _). exists new.
    repeat split; trivial.
    intros (? & ? & ? & ? & [E | E]); discriminate E.
  - apply Log_effect in H. destruct H as (new & -> & Hl & _).
    exists new. now repeat split.
  - apply LogToFile_effect in H. destruct H as (new & -> & Hl & _).
    exists new. now repeat split.
Qed.

Lemma calls_only_append_witness :
  exists new,
    _logQ (set_logQ [misuse_record (Sample.env true)] initial)
    = (_logQ initial ++ new)%list
    /\ List.length new <= 1
    /\ _running (set_logQ [misuse_record (Sample.env true)] initial)
       = _running initial
    /\ ((exists lvl w fmt args,
            CLogToFile Fatal Sample.site "{" [] = CLog lvl w fmt args
            \/ CLogToFile Fatal Sample.site "{" []
               = CLogToFile lvl w fmt args) ->
        set_logQ [misuse_record (Sample.env true)] initial
        = set_logQ (_logQ initial ++ new) initial).
Proof.
  apply (calls_only_append (Sample.env true)
           (CLogToFile Fatal Sample.site "{" []) initial).
  reflexivity.
Defined.

(** X6: the path given to [SetLogfilePath] is the file that
    [EnableFileLogging(true)] opens and that a later [LogToFile] record
    is appended to by the worker, which also prints it. *)
Theorem file_logging_uses_configured_path
        env p lg lvl site fmt args payload o :
  fs_file (_logFile lg) = None ->
  can_open env p = true ->
  _logQ lg = [] ->
  Fmt.vformat fmt args = Some payload ->
  exec [SCall env (CSetLogfilePath p); SCall env (CEnableFileLogging true);
        SCall env (CLogToFile lvl site fmt args); SWorker; SWorker]
       {| logger := lg; wpc := WWait; out := o |}
  = Some {| logger :=
              set_logToFile true
                (set_logFile {| fs_file := Some p; fs_fail := false |}
                             (SetLogfilePath p lg));
            wpc := WRelock;
            out := (o ++ [FileOut p (file_text env lvl site payload);
                          ConsoleOut (file_text env lvl site payload)])%list |}.
Proof.
  intros Hclosed Hopen Hq Hfmt.
  assert (He : EnableFileLogging env true (SetLogfilePath p lg)
               = Ok (set_logToFile true
                       (set_logFile {| fs_file := Some p; fs_fail := false |}
                                    (SetLogfilePath p lg)))).
  { unfold EnableFileLogging, fs_open.
    cbn [SetLogfilePath _logFile _logPath set_logFile].
    now rewrite Hclosed, Hopen. }
  assert (Hl : LogToFile env lvl site fmt args
                 (set_logToFile true
                    (set_logFile {| fs_file := Some p; fs_fail := false |}
                                 (SetLogfilePath p lg)))
               = Ok (set_logQ
                       [{| level := lvl; where_ := site;
                           message := file_text env lvl site payload;
                           toFile := true |}]
                       (set_logToFile true
                          (set_logFile
                             {| fs_file := Some p; fs_fail := false |}
                             (SetLogfilePath p lg))))).
  { unfold LogToFile. cbn [set_logToFile _logToFile negb].
    rewrite (format_file _ _ _ _ _ _ Hfmt). cbn [bind]. unfold pushToQ.
    cbn [set_logToFile set_logFile SetLogfilePath _logQ]. now rewrite Hq. }
  cbn [exec sched_step call logger wpc out].
  rewrite He. cbn [logger wpc out]. rewrite Hl. clear He Hl.
  destruct lg as [f on pa l q r]. cbn [_logQ] in Hq. subst q.
  reflexivity.
Qed.

Lemma file_logging_uses_configured_path_witness :
  exec [SCall (Sample.env true) (CSetLogfilePath "run.log");
        SCall (Sample.env true) (CEnableFileLogging true);
        SCall (Sample.env true)
              (CLogToFile Info Sample.site "saved {}" [Fmt.ArgString "slot1"]);
        SWorker; SWorker]
       {| logger := initial; wpc := WWait; out := [] |}
  = Some {| logger :=
              set_logToFile true
                (set_logFile {| fs_file := Some "run.log"; fs_fail := false |}
                             (SetLogfilePath "run.log" initial));
            wpc := WRelock;
            out := [FileOut "run.log"
                      (file_text (Sample.env true) Info Sample.site
                                 "saved slot1");
                    ConsoleOut
                      (file_text (Sample.env true) Info Sample.site
                                 "saved slot1")] |}.
Proof.
  apply (file_logging_uses_configured_path (Sample.env true) "run.log"
           initial Info Sample.site "saved {}" [Fmt.ArgString "slot1"]
           "saved slot1" []); reflexivity.
Defined.

(** X7: changing the path while a file is open does not redirect the
    records: the worker keeps appending to the file that is open.  The new
    path is used only once file logging has been disabled and enabled
    again. *)
Theorem path_change_needs_reenable env lg p p' msg :
  _logToFile lg = true ->
  _logFile lg = {| fs_file := Some p; fs_fail := false |} ->
  toFile msg = true ->
  can_open env p' = true ->
  worker_write (SetLogfilePath p' lg) msg
  = [FileOut p (message msg); ConsoleOut (message msg)]
  /\ exists lg1 lg2,
      EnableFileLogging env false (SetLogfilePath p' lg) = Ok lg1
      /\ EnableFileLogging env true lg1 = Ok lg2
      /\ worker_write lg2 msg
         = [FileOut p' (message msg); ConsoleOut (message msg)].
Proof.
  intros Hon Hfile Hflag Hopen.
  destruct lg as [f on pa l q r]. cbn [_logToFile _logFile] in Hon, Hfile.
  subst f on. destruct msg as [ml mw mt mf]. cbn [toFile] in Hflag.
  subst mf. split; [reflexivity|].
  eexists. eexists. split; [reflexivity|].
  unfold EnableFileLogging, fs_open.
  cbn [set_logToFile set_logFile SetLogfilePath _logFile _logPath fs_close
       fs_file is_open].
  rewrite Hopen. split; reflexivity.
Qed.

Lemma path_change_needs_reenable_witness :
  worker_write (SetLogfilePath "b.log" Sample.enabled)
               {| level := Info; where_ := Sample.site; message := "x";
                  toFile := true |}
  = [FileOut DEFAULT_PATH "x"; ConsoleOut "x"]
  /\ exists lg1 lg2,
      EnableFileLogging (Sample.env true) false
                        (SetLogfilePath "b.log" Sample.enabled) = Ok lg1
      /\ EnableFileLogging (Sample.env true) true lg1 = Ok lg2
      /\ worker_write lg2 {| level := Info; where_ := Sample.site;
                             message := "x"; toFile := true |}
         = [FileOut "b.log" "x"; ConsoleOut "x"].
Proof.
  apply (path_change_needs_reenable (Sample.env true) Sample.enabled
           DEFAULT_PATH "b.log"
           {| level := Info; where_ := Sample.site; message := "x";
              toFile := true |}); reflexivity.
Defined.

(** X8: [EnableFileLogging(false)] always returns, queues nothing, closes
    the file and clears the flag; a second call changes nothing more.
    Records flagged for the file that are still queued then go to the
    console only, from the worker and from the destructor alike. *)
Theorem disabling_file_logging env lg :
  exists lg',
    EnableFileLogging env false lg = Ok lg'
    /\ _logToFile lg' = false
    /\ is_open (_logFile lg') = false
    /\ _logQ lg' = _logQ lg
    /\ EnableFileLogging env false lg' = Ok lg'
    /\ (forall msg, worker_write lg' msg = [ConsoleOut (message msg)])
    /\ (forall msg, dtor_write lg' msg = [ConsoleOut (message msg)]).
Proof.
  unfold EnableFileLogging at 1. eexists. split; [reflexivity|].
  assert (Hoff : forall msg,
             file_target
               (set_logToFile false
                  (if is_open (_logFile lg)
                   then set_logFile (fs_close (_logFile lg)) lg else lg))
               msg = false).
  { intros msg. unfold file_target. cbn [set_logToFile _logToFile].
    now rewrite andb_false_r. }
  repeat split.
  - destruct (is_open (_logFile lg)) eqn:E; [reflexivity | exact E].
  - now destruct (is_open (_logFile lg)).
  - unfold EnableFileLogging.
    destruct (is_open (_logFile lg)) eqn:E;
      cbn [set_logToFile set_logFile _logFile fs_close is_open fs_file];
      [reflexivity | now rewrite E].
  - intros msg. unfold worker_write. now rewrite Hoff.
  - intros msg. unfold dtor_write. now rewrite Hoff.
Qed.

(** X9: [EnableFileLogging(true)] on a stream that is already open queues
    no error and leaves the flag set, but the stream is left failed.
    From then on no record reaches the file: the worker prints
    file-flagged records to the console only and the destructor's residual
    loop writes them nowhere.  Disabling and enabling again, with a path
    that opens, restores a sound stream. *)
Theorem enabling_twice_fails_the_stream env lg p :
  fs_file (_logFile lg) = Some p ->
  exists lg',
    EnableFileLogging env true lg = Ok lg'
    /\ _logToFile lg' = true
    /\ _logFile lg' = {| fs_file := Some p; fs_fail := true |}
    /\ _logQ lg' = _logQ lg
    /\ (forall msg, worker_write lg' msg = [ConsoleOut (message msg)])
    /\ (forall msg, toFile msg = true -> dtor_write lg' msg = [])
    /\ (can_open env (_logPath lg) = true ->
        exists lg1 lg2,
          EnableFileLogging env false lg' = Ok lg1
          /\ EnableFileLogging env true lg1 = Ok lg2
          /\ _logToFile lg2 = true
          /\ _logFile lg2
             = {| fs_file := Some (_logPath lg); fs_fail := false |}).
Proof.
  intros Hfile. destruct lg as [f on pa l q r]. cbn [_logFile] in Hfile.
  destruct f as [file fail]. cbn [fs_file] in Hfile. subst file.
  eexists. split; [reflexivity|]. cbn [_logPath _logQ].
  repeat split.
  - intros msg. unfold worker_write, file_target, stream_insert.
    cbn [set_logToFile set_logFile _logToFile _logFile fs_file fs_fail
         fs_open].
    now destruct (toFile msg).
  - intros msg Hflag. unfold dtor_write, file_target, stream_insert.
    cbn [set_logToFile set_logFile _logToFile _logFile fs_file fs_fail
         is_open fs_open].
    now rewrite Hflag.
  - intros Hopen. eexists. eexists. split; [reflexivity|].
    unfold EnableFileLogging, fs_open.
    cbn [set_logToFile set_logFile _logFile _logPath is_open fs_file
         fs_close].
    rewrite Hopen. repeat split.
Qed.

Lemma enabling_twice_fails_the_stream_witness :
  exists lg',
    EnableFileLogging (Sample.env true) true Sample.enabled = Ok lg'
    /\ _logToFile lg' = true
    /\ _logFile lg' = {| fs_file := Some DEFAULT_PATH; fs_fail := true |}
    /\ _logQ lg' = _logQ Sample.enabled
    /\ (forall msg, worker_write lg' msg = [ConsoleOut (message msg)])
    /\ (forall msg, toFile msg = true -> dtor_write lg' msg = [])
    /\ (can_open (Sample.env true) (_logPath Sample.enabled) = true ->
        exists lg1 lg2,
          EnableFileLogging (Sample.env true) false lg' = Ok lg1
          /\ EnableFileLogging (Sample.env true) true lg1 = Ok lg2
          /\ _logToFile lg2 = true
          /\ _logFile lg2
             = {| fs_file := Some (_logPath Sample.enabled);
                  fs_fail := false |}).
Proof.
  apply (enabling_twice_fails_the_stream (Sample.env true) Sample.enabled
           DEFAULT_PATH).
  reflexivity.
Defined.

(** X10: a call made at level [Off] is never filtered, not even with the
    minimum level at [Off]: it queues one console record whose level name
    is empty and whose colour is the reset sequence. *)
Theorem Off_is_never_filtered env w fmt args payload lg :
  Fmt.vformat fmt args = Some payload ->
  Log env Off w fmt args lg
  = Ok (set_logQ
          (_logQ lg ++
             [{| level := Off; where_ := w;
                 message :=
                   SpecText.bracketed_console_form (ESC ++ "[0m") ""
                     (shortFile (file_name w)) (CStr.decimal (line w))
                     (function_name w) payload (ESC ++ "[0m");
                 toFile := false |}])
          lg).
Proof.
  intros Hfmt. unfold Log.
  assert (H : level_lt Off (_level lg) = false)
    by (apply level_lt_false; destruct (_level lg); simpl; lia).
  rewrite H. now rewrite (format_console _ _ _ _ _ _ Hfmt).
Qed.

Lemma Off_is_never_filtered_witness :
  exists text,
    Log (Sample.env true) Off Sample.site "bye" [] (SetLevel Off initial)
    = Ok (set_logQ [{| level := Off; where_ := Sample.site;
                       message := text; toFile := false |}]
            (SetLevel Off initial)).
Proof.
  eexists.
  apply (Off_is_never_filtered (Sample.env true) Sample.site "bye" [] "bye"
           (SetLevel Off initial)).
  reflexivity.
Defined.

(** * Further properties of the worker and of teardown *)

Section WorkerFacts.

Local Open Scope list_scope.

Lemma call_keeps_running env c lg lg' :
  call env c lg = Ok lg' -> _running lg' = _running lg.
Proof.
  destruct c as [lvl | p | enable | lvl w fmt args | lvl w fmt args];
    cbn [call]; intros H.
  - now injection H as <-.
  - now injection H as <-.
  - apply EnableFileLogging_effect in H.
    now destruct H as (new & _ & _ & _ & Hr & _).
  - apply Log_effect in H. now destruct H as (new & -> & _).
  - apply LogToFile_effect in H. now destruct H as (new & -> & _).
Qed.

(** One worker step, then the rest of a run of worker steps. *)
Lemma exec_worker_next n w :
  exec (repeat SWorker (S n)) w
  = match worker_step w with
    | Some w' => exec (repeat SWorker n) w'
    | None => None
    end.
Proof. reflexivity. Qed.

(** From the point where the lock is taken again, the running worker
    writes the whole queue and comes to rest in the wait. *)
Lemma worker_drains_from_relock q :
  forall lg o,
    _running lg = true ->
    exec (repeat SWorker (2 * length q + 2))
         {| logger := set_logQ q lg; wpc := WRelock; out := o |}
    = Some {| logger := set_logQ [] lg; wpc := WWait;
              out := o ++ flat_map (worker_write lg) q |}.
Proof.
  induction q as [|m q IH]; intros lg o Hrun.
  - cbn [length Nat.mul Nat.add repeat exec sched_step worker_step wpc
         inner_loop logger set_logQ _logQ out _running flat_map].
    rewrite Hrun. now rewrite app_nil_r.
  - replace (2 * length (m :: q) + 2) with (S (S (2 * length q + 2)))
      by (simpl; lia).
    rewrite exec_worker_next.
    cbn [worker_step wpc inner_loop logger set_logQ _logQ out].
    rewrite exec_worker_next. cbn [worker_step wpc logger out].
    change (set_logQ q (set_logQ (m :: q) lg)) with (set_logQ q lg).
    rewrite (IH lg _ Hrun). cbn [flat_map]. now rewrite app_assoc.
Qed.

Lemma step_from_top lg o :
  _running lg = true ->
  worker_step {| logger := lg; wpc := WTop; out := o |}
  = Some {| logger := lg; wpc := WWait; out := o |}.
Proof. intros H. cbn. now rewrite H. Qed.

Lemma step_from_wait lg m q o :
  _logQ lg = m :: q ->
  worker_step {| logger := lg; wpc := WWait; out := o |}
  = Some {| logger := set_logQ q lg; wpc := WWrite m; out := o |}.
Proof.
  intros H. unfold worker_step, inner_loop. cbn [wpc logger out].
  now rewrite H.
Qed.

Lemma step_from_write lg m o :
  worker_step {| logger := lg; wpc := WWrite m; out := o |}
  = Some {| logger := lg; wpc := WRelock; out := o ++ worker_write lg m |}.
Proof. reflexivity. Qed.

Lemma wait_on_empty lg o :
  _running lg = true ->
  _logQ lg = [] ->
  worker_step {| logger := lg; wpc := WWait; out := o |} = None.
Proof.
  intros H Q. unfold worker_step. cbn [wpc logger]. now rewrite H, Q.
Qed.

End WorkerFacts.

(** X11: the worker thread returns only after [_running] has been
    cleared, and [_running] is cleared by nothing but the destructor's
    stop signal: no call of the interface stops the worker. *)
Theorem worker_stops_only_on_signal ss w :
  exec ss start = Some w ->
  (wpc w = WDone -> _running (logger w) = false)
  /\ (_running (logger w) = false -> existsb is_stop ss = true).
Proof.
  assert (G : forall ss w0 w,
             exec ss w0 = Some w ->
             (wpc w0 = WDone -> _running (logger w0) = false) ->
             (wpc w = WDone -> _running (logger w) = false)
             /\ (_running (logger w) = false ->
                 _running (logger w0) = false
                 \/ existsb is_stop ss = true)).
  { clear. induction ss as [|s ss IH]; intros w0 w He Hinv.
    - injection He as <-. split; [exact Hinv | now left].
    - cbn [exec] in He.
      destruct (sched_step s w0) as [w1|] eqn:Hs; [|discriminate].
      assert (H1 : (wpc w1 = WDone -> _running (logger w1) = false)
                   /\ (_running (logger w1) = false ->
                       _running (logger w0) = false \/ is_stop s = true)).
      { destruct s as [env c| |]; cbn [sched_step] in Hs.
        - destruct (call env c (logger w0)) as [lg'|] eqn:Hc;
            [|discriminate].
          injection Hs as <-. cbn [logger wpc].
          rewrite (call_keeps_running env c _ _ Hc). split; [exact Hinv|].
          now left.
        - unfold worker_step, inner_loop in Hs.
          destruct (wpc w0) eqn:Hpc;
            repeat match type of Hs with
                   | context [if ?b then _ else _] => destruct b eqn:?
                   | context [match _logQ ?l with _ => _ end] =>
                       destruct (_logQ l)
                   end;
            try discriminate; injection Hs as <-; cbn [logger wpc];
            (split; [intros; try discriminate; auto
                    | intros H'; left; first [exact H' | congruence]]).
        - injection Hs as <-. cbn [logger wpc set_running _running].
          split; [trivial | now right]. }
      destruct H1 as [Hinv1 Hstop1].
      destruct (IH w1 w He Hinv1) as [Hd Hr]. split; [exact Hd|].
      intros Hf. cbn [existsb].
      destruct (Hr Hf) as [H | H].
      + destruct (Hstop1 H) as [H0 | H0]; [now left | right].
        now rewrite H0.
      + right. rewrite H. apply orb_true_r. }
  intros He. destruct (G ss start w He) as [Hd Hr]; [discriminate|].
  split; [exact Hd|]. intros Hf. now destruct (Hr Hf).
Qed.

Lemma worker_stops_only_on_signal_witness :
  (wpc Sample.abc_world = WDone -> _running (logger Sample.abc_world) = false)
  /\ (_running (logger Sample.abc_world) = false ->
      existsb is_stop Sample.abc = true).
Proof.
  apply (worker_stops_only_on_signal Sample.abc Sample.abc_world).
  vm_compute. reflexivity.
Defined.

(** X12: left to run, the worker makes progress.  While [_running] is
    set and the thread has not returned, a bounded number of its own
    steps writes every pending record, in order, and leaves it blocked in
    the wait on an empty queue. *)
Theorem worker_drains_and_waits w :
  _running (logger w) = true ->
  wpc w <> WDone ->
  exists n w',
    n <= 2 * List.length (_logQ (logger w)) + 3
    /\ exec (repeat SWorker n) w = Some w'
    /\ wpc w' = WWait
    /\ logger w' = set_logQ [] (logger w)
    /\ out w' = (out w ++ flat_map (worker_write (logger w)) (pending w))%list
    /\ worker_step w' = None.
Proof.
  intros Hrun Hpc. destruct w as [lg pc o]. cbn [logger wpc out] in *.
  unfold pending, inflight. cbn [logger wpc].
  assert (Hrest : forall o',
             worker_step {| logger := set_logQ [] lg; wpc := WWait;
                            out := o' |} = None)
    by (intros o'; now apply wait_on_empty).
  assert (Hgo : forall m q o',
             _logQ lg = m :: q ->
             exec (repeat SWorker (2 * List.length (m :: q) + 2))
                  {| logger := lg; wpc := WWait; out := o' |}
             = Some {| logger := set_logQ [] lg; wpc := WWait;
                       out := (o' ++ flat_map (worker_write lg) (m :: q))%list |}).
  { intros m q o' Q.
    replace (2 * List.length (m :: q) + 2)
      with (S (S (2 * List.length q + 2))) by (simpl; lia).
    rewrite exec_worker_next, (step_from_wait lg m q o' Q).
    rewrite exec_worker_next, step_from_write.
    change (worker_write (set_logQ q lg) m) with (worker_write lg m).
    rewrite (worker_drains_from_relock q lg _ Hrun).
    cbn [flat_map]. now rewrite <- app_assoc. }
  destruct pc as [| |msg| |]; [| | | |now elim Hpc].
  - (* at the loop test *)
    destruct (_logQ lg) as [|m q] eqn:Q.
    + exists 1. eexists. split; [lia|]. rewrite exec_worker_next.
      rewrite (step_from_top lg o Hrun). split; [reflexivity|].
      cbn [wpc logger out flat_map app]. rewrite app_nil_r. repeat split.
      * now rewrite <- Q, set_logQ_same.
      * now apply wait_on_empty.
    + exists (S (2 * List.length (m :: q) + 2)). eexists.
      split; [lia|]. rewrite exec_worker_next.
      rewrite (step_from_top lg o Hrun), (Hgo m q o eq_refl).
      split; [reflexivity|]. cbn [wpc logger out app].
      repeat split. apply Hrest.
  - (* in the wait *)
    destruct (_logQ lg) as [|m q] eqn:Q.
    + exists 0. eexists. split; [lia|]. split; [reflexivity|].
      cbn [wpc logger out flat_map app]. rewrite app_nil_r. repeat split.
      * now rewrite <- Q, set_logQ_same.
      * now apply wait_on_empty.
    + exists (2 * List.length (m :: q) + 2). eexists. split; [lia|].
      rewrite (Hgo m q o eq_refl). split; [reflexivity|].
      cbn [wpc logger out app]. repeat split. apply Hrest.
  - (* a record in flight *)
    exists (S (2 * List.length (_logQ lg) + 2)). eexists. split; [lia|].
    rewrite exec_worker_next, step_from_write.
    rewrite <- (set_logQ_same lg) at 2.
    rewrite (worker_drains_from_relock (_logQ lg) lg _ Hrun).
    split; [reflexivity|]. cbn [wpc logger out app flat_map].
    repeat split; [now rewrite <- app_assoc | apply Hrest].
  - (* about to take the lock again *)
    exists (2 * List.length (_logQ lg) + 2). eexists. split; [lia|].
    rewrite <- (set_logQ_same lg) at 2.
    rewrite (worker_drains_from_relock (_logQ lg) lg _ Hrun).
    split; [reflexivity|]. cbn [wpc logger out app flat_map].
    repeat split. apply Hrest.
Qed.

Lemma worker_drains_and_waits_witness :
  exists n w',
    n <= 2 * List.length (_logQ (logger Sample.teardown_world)) + 3
    /\ exec (repeat SWorker n) Sample.teardown_world = Some w'
    /\ wpc w' = WWait
    /\ logger w' = set_logQ [] (logger Sample.teardown_world)
    /\ out w'
       = (out Sample.teardown_world
          ++ flat_map (worker_write (logger Sample.teardown_world))
                      (pending Sample.teardown_world))%list
    /\ worker_step w' = None.
Proof.
  apply (worker_drains_and_waits Sample.teardown_world);
    [reflexivity | discriminate].
Defined.

(** X13: in every state reached from construction, the file-logging flag
    is set exactly when the stream holds an open file. *)
Theorem flag_follows_handle ss w :
  exec ss start = Some w ->
  _logToFile (logger w) = is_open (_logFile (logger w)).
Proof. intros He. now apply (exec_keeps_flag_with_handle ss start w). Qed.

Lemma flag_follows_handle_witness :
  _logToFile (logger Sample.abc_world)
  = is_open (_logFile (logger Sample.abc_world)).
Proof.
  apply (flag_follows_handle Sample.abc Sample.abc_world).
  vm_compute. reflexivity.
Defined.

Section NoFileFacts.

Local Open Scope list_scope.

Lemma call_without_enable env c lg lg' :
  turns_file_logging_on (SCall env c) = false ->
  _logToFile lg = false ->
  fs_file (_logFile lg) = None ->
  call env c lg = Ok lg' ->
  _logToFile lg' = false
  /\ fs_file (_logFile lg') = None
  /\ (Forall (fun m => toFile m = false) (_logQ lg) ->
      Forall (fun m => toFile m = false) (_logQ lg')).
Proof.
  intros Hno Hoff Hclosed.
  destruct c as [lvl | p | enable | lvl w fmt args | lvl w fmt args];
    cbn [call].
  - intros [= <-]. now repeat split.
  - intros [= <-]. now repeat split.
  - destruct enable; [discriminate Hno|].
    unfold EnableFileLogging, is_open. rewrite Hclosed.
    intros [= <-]. now repeat split.
  - intros H. apply Log_effect in H. destruct H as (new & -> & _ & Hf).
    repeat split; trivial. intros Hq. cbn [set_logQ _logQ].
    apply Forall_app. split; [exact Hq|].
    eapply Forall_impl; [|exact Hf]. now intros m [_ Hm].
  - unfold LogToFile. rewrite Hoff. cbn [negb].
    intros H. apply Log_effect in H. destruct H as (new & -> & _ & Hf).
    repeat split; trivial. intros Hq. cbn [set_logQ _logQ].
    apply Forall_app. split; [exact Hq|].
    eapply Forall_impl; [|exact Hf]. now intros m [_ Hm].
Qed.

Lemma worker_write_closed lg msg :
  _logToFile lg = false ->
  worker_write lg msg = [ConsoleOut (message msg)].
Proof.
  intros Hoff. unfold worker_write, file_target.
  now rewrite Hoff, andb_false_r.
Qed.

Lemma console_only_app a b :
  Forall (fun e => exists text, e = ConsoleOut text) a ->
  Forall (fun e => exists text, e = ConsoleOut text) b ->
  Forall (fun e => exists text, e = ConsoleOut text) (a ++ b).
Proof. intros Ha Hb. apply Forall_app. now split. Qed.

End NoFileFacts.

(** X14: as long as [EnableFileLogging(true)] is never called, nothing is
    ever written to a file: every event of the trace is a console print,
    no queued record is flagged for the file, and the stream stays
    closed, whatever else is called, [LogToFile] included. *)
Theorem no_file_output_unless_enabled ss w :
  existsb turns_file_logging_on ss = false ->
  exec ss start = Some w ->
  Forall (fun e => exists text, e = ConsoleOut text) (out w)
  /\ Forall (fun m => toFile m = false) (pending w)
  /\ is_open (_logFile (logger w)) = false.
Proof.
  assert (G : forall ss w0 w,
             existsb turns_file_logging_on ss = false ->
             exec ss w0 = Some w ->
             _logToFile (logger w0) = false ->
             fs_file (_logFile (logger w0)) = None ->
             Forall (fun e => exists text, e = ConsoleOut text) (out w0) ->
             Forall (fun m => toFile m = false) (pending w0) ->
             _logToFile (logger w) = false
             /\ fs_file (_logFile (logger w)) = None
             /\ Forall (fun e => exists text, e = ConsoleOut text) (out w)
             /\ Forall (fun m => toFile m = false) (pending w)).
  { clear. induction ss as [|s ss IH]; intros w0 w Hno He Hoff Hcl Ho Hp.
    - injection He as <-. now repeat split.
    - cbn [existsb] in Hno. apply orb_false_iff in Hno as [Hs Hno].
      cbn [exec] in He.
      destruct (sched_step s w0) as [w1|] eqn:Hstep; [|discriminate].
      apply (IH w1 w Hno He); clear IH He.
      + destruct s as [env c| |]; cbn [sched_step] in Hstep.
        * destruct (call env c (logger w0)) as [lg'|] eqn:Hc;
            [|discriminate].
          injection Hstep as <-.
          now destruct (call_without_enable env c _ _ Hs Hoff Hcl Hc).
        * unfold worker_step, inner_loop in Hstep.
          destruct (wpc w0);
            repeat match type of Hstep with
                   | context [if ?b then _ else _] => destruct b
                   | context [match _logQ ?l with _ => _ end] =>
                       destruct (_logQ l)
                   end;
            try discriminate; injection Hstep as <-; exact Hoff.
        * injection Hstep as <-. exact Hoff.
      + destruct s as [env c| |]; cbn [sched_step] in Hstep.
        * destruct (call env c (logger w0)) as [lg'|] eqn:Hc;
            [|discriminate].
          injection Hstep as <-.
          now destruct (call_without_enable env c _ _ Hs Hoff Hcl Hc).
        * unfold worker_step, inner_loop in Hstep.
          destruct (wpc w0);
            repeat match type of Hstep with
                   | context [if ?b then _ else _] => destruct b
                   | context [match _logQ ?l with _ => _ end] =>
                       destruct (_logQ l)
                   end;
            try discriminate; injection Hstep as <-; exact Hcl.
        * injection Hstep as <-. exact Hcl.
      + destruct s as [env c| |]; cbn [sched_step] in Hstep.
        * destruct (call env c (logger w0)) as [lg'|]; [|discriminate].
          now injection Hstep as <-.
        * unfold worker_step, inner_loop in Hstep.
          destruct (wpc w0);
            repeat match type of Hstep with
                   | context [if ?b then _ else _] => destruct b
                   | context [match _logQ ?l with _ => _ end] =>
                       destruct (_logQ l)
                   end;
            try discriminate; injection Hstep as <-; cbn [out];
            try exact Ho.
          apply console_only_app; [exact Ho|].
          rewrite (worker_write_closed _ _ Hoff).
          constructor; [now eexists | constructor].
        * now injection Hstep as <-.
      + unfold pending, inflight in *.
        destruct s as [env c| |]; cbn [sched_step] in Hstep.
        * destruct (call env c (logger w0)) as [lg'|] eqn:Hc;
            [|discriminate].
          injection Hstep as <-. cbn [wpc logger].
          apply Forall_app in Hp as [Hi Hq].
          apply Forall_app. split; [exact Hi|].
          destruct (call_without_enable env c _ _ Hs Hoff Hcl Hc)
            as (_ & _ & H).
          now apply H.
        * unfold worker_step, inner_loop in Hstep.
          destruct w0 as [lg pc o]. cbn [wpc logger out] in *.
          destruct pc;
            repeat match type of Hstep with
                   | context [if ?b then _ else _] => destruct b
                   end;
            try discriminate;
            try (destruct (_logQ lg) eqn:Q);
            injection Hstep as <-; cbn [wpc logger set_logQ _logQ];
            rewrite ?Q; cbn [app] in *; trivial.
          now apply Forall_inv_tail in Hp.
        * now injection Hstep as <-. }
  intros Hno He.
  destruct (G ss start w Hno He) as (_ & Hcl & Ho & Hp);
    try reflexivity; try constructor.
  repeat split; trivial. unfold is_open. now rewrite Hcl.
Qed.

Lemma no_file_output_unless_enabled_witness :
  Forall (fun e => exists text, e = ConsoleOut text)
         (out {| logger := set_logQ [] initial; wpc := WRelock;
                 out := [ConsoleOut (message (misuse_record (Sample.env true)))] |})
  /\ Forall (fun m => toFile m = false)
            (pending {| logger := set_logQ [] initial; wpc := WRelock;
                        out := [ConsoleOut
                                  (message (misuse_record (Sample.env true)))] |})
  /\ is_open (_logFile (logger
        {| logger := set_logQ [] initial; wpc := WRelock;
           out := [ConsoleOut (message (misuse_record (Sample.env true)))] |}))
     = false.
Proof.
  apply (no_file_output_unless_enabled
           [SCall (Sample.env true)
                  (CLogToFile Info Sample.site "saved" []);
            SWorker; SWorker; SWorker]);
    reflexivity.
Defined.

(** X15: the two write sites differ on the console.  The worker prints
    every record it writes; the destructor's residual loop prints only the
    records it does not send to the file. *)
Theorem console_share_of_the_writers lg q :
  console_of (flat_map (worker_write lg) q) = map message q
  /\ console_of (drain lg q) = map message (filter (console_bound lg) q).
Proof.
  split.
  - induction q as [|m q IH]; [reflexivity|].
    cbn [flat_map map]. rewrite console_of_app, IH.
    destruct (worker_write_shape lg m) as [-> | (_ & p & ->)]; reflexivity.
  - induction q as [|m q IH]; [reflexivity|].
    cbn [drain filter]. rewrite console_of_app, IH.
    unfold dtor_write, console_bound, stream_insert.
    destruct (file_target lg m); cbn [negb]; [|reflexivity].
    destruct (fs_file (_logFile lg)); [|reflexivity].
    now destruct (fs_fail (_logFile lg)).
Qed.

(** * Further properties of the macro interface *)

Section MacroFacts.

Local Open Scope list_scope.

Lemma run_effect ndebug env u lg lg' :
  Macros.run ndebug env u lg = Ok lg' ->
  exists new,
    _logQ lg' = _logQ lg ++ new
    /\ Forall (fun m => level m <> Off
                        /\ (ndebug = true ->
                            level_value Warn <= level_value (level m))) new.
Proof.
  destruct u as [m site fmt args | enable | p | lvl]; cbn [Macros.run call].
  - destruct (Macros.expand ndebug m site fmt args) as [c|] eqn:X.
    + assert (Hc : exists lvl,
                 (c = CLog lvl site fmt args
                  \/ c = CLogToFile lvl site fmt args)
                 /\ lvl <> Off
                 /\ (ndebug = true ->
                     level_value Warn <= level_value lvl)).
      { destruct m, ndebug; cbn [Macros.expand] in X;
          try discriminate; injection X as <-; eexists;
          (split; [(now left) || (now right)|]);
          (split; [discriminate | intros; simpl; lia || discriminate]). }
      destruct Hc as (lvl & [-> | ->] & Hoff & Hmin); cbn [call]; intros H.
      * apply Log_effect in H. destruct H as (new & -> & _ & Hf).
        exists new. split; [reflexivity|].
        eapply Forall_impl; [|exact Hf]. intros r [-> _]. now split.
      * apply LogToFile_effect in H. destruct H as (new & -> & _ & Hf).
        exists new. split; [reflexivity|].
        eapply Forall_impl; [|exact Hf].
        intros r [-> | ->]; split; trivial; try discriminate;
          intros _; simpl; lia.
    + intros [= <-]. exists []. now rewrite app_nil_r.
  - intros H. apply EnableFileLogging_effect in H.
    destruct H as (new & Hq & _ & Hf & _). exists new. split; [exact Hq|].
    eapply Forall_impl; [|exact Hf]. intros r ->.
    split; [discriminate | intros _; simpl; lia].
  - intros [= <-]. exists []. cbn. now rewrite app_nil_r.
  - intros [= <-]. exists []. cbn. now rewrite app_nil_r.
Qed.

End MacroFacts.

(** X16: a client that logs only through the macros never queues a record
    of level [Off]; built with [NDEBUG] it never queues a record below
    [Warn], whatever minimum level it sets.  (Warn itself still occurs in
    such a build: it is the misuse warning of a file-logging macro used
    while file logging is off.) *)
Theorem macros_respect_the_build ndebug us lg lg' :
  Macros.run_all ndebug us lg = Ok lg' ->
  exists new,
    _logQ lg' = (_logQ lg ++ new)%list
    /\ Forall (fun m => level m <> Off
                        /\ (ndebug = true ->
                            level_value Warn <= level_value (level m))) new.
Proof.
  revert lg. induction us as [|[env u] us IH]; intros lg; cbn [Macros.run_all].
  - intros [= <-]. exists []. now rewrite app_nil_r.
  - destruct (Macros.run ndebug env u lg) as [lg1|] eqn:R; cbn [bind];
      [|discriminate].
    intros H. apply run_effect in R. destruct R as (n1 & Hq1 & Hf1).
    destruct (IH lg1 H) as (n2 & Hq2 & Hf2).
    exists (n1 ++ n2)%list. split.
    + now rewrite Hq2, Hq1, app_assoc.
    + apply Forall_app. now split.
Qed.

Lemma macros_respect_the_build_witness :
  exists new,
    _logQ (set_logQ [misuse_record (Sample.env true)] initial)
    = (_logQ initial ++ new)%list
    /\ Forall (fun m => level m <> Off
                        /\ (true = true ->
                            level_value Warn <= level_value (level m))) new.
Proof.
  apply (macros_respect_the_build true
           [(Sample.env true,
             Macros.ULog Macros.LOG_INFO Sample.site "{" []);
            (Sample.env true,
             Macros.ULog Macros.FLOG_ERROR Sample.site "disk {}"
                         [Fmt.ArgString "full"])]
           initial).
  reflexivity.
Defined.

(** * The order of writes, from enqueue to teardown *)

Section OrderFacts.

Local Open Scope list_scope.










End OrderFacts.



(** C8: the destructor does not drain fully.  After
    [EnableFileLogging(true)] has been called twice the stream is open
    but failed; a record queued for the file and still in the queue at
    teardown passes the residual loop's file guard, the insertion into
    the failed stream writes nothing, and the [else] branch that prints
    is not taken: the record reaches no sink. *)
Theorem destructor_drops_record_on_failed_stream :
  exec Sample.twice start = Some Sample.twice_world
  /\ pending Sample.twice_world = [Sample.recB]
  /\ _logToFile (logger Sample.twice_world) = true
  /\ is_open (_logFile (logger Sample.twice_world)) = true
  /\ forall fuel,
      exists w',
        destructor (S fuel) Sample.twice_world = Some w'
        /\ wpc w' = WDone
        /\ _logQ (logger w') = []
        /\ is_open (_logFile (logger w')) = false
        /\ out w' = [].
Proof.
  repeat split; try reflexivity.
  intros fuel. eexists. split.
  - unfold destructor. cbn [join wpc Sample.twice_world worker_step logger
                             set_running _running out].
    replace (join fuel _) with
      (Some {| logger := set_running false (logger Sample.twice_world);
               wpc := WDone; out := [] |})
      by now destruct fuel.
    reflexivity.
  - repeat split.
Qed.

(** C10: with file logging enabled, a file-flagged record processed by
    the worker is not always written to the file.  After
    [EnableFileLogging(true)] has been called twice the flag is set and
    the stream is open but failed; the worker then prints the record, in
    its file form, to the console and the file receives nothing. *)
Theorem worker_skips_file_on_failed_stream :
  exists w,
    exec (Sample.twice ++ [SWorker; SWorker; SWorker])%list start = Some w
    /\ _logToFile (logger w) = true
    /\ is_open (_logFile (logger w)) = true
    /\ file_target (logger w) Sample.recB = true
    /\ pending w = []
    /\ out w = [ConsoleOut (file_text (Sample.env true) Warn Sample.site "B")].
Proof. eexists. repeat split; reflexivity. Qed.
